(** * oxlint-json-to-sarif: the parser and the SARIF converter

    A shallow embedding of [src/parser.ts] (parseOxlintJson and its helpers)
    and [src/converter.ts] (convertToSarif and its helpers), with the
    properties of the specification stated and proved over it.

    Conventions of the embedding.
    - A JavaScript string is its sequence of UTF-16 code units, [list N];
      [js "abc"] writes an ASCII literal.
    - A JavaScript number is an IEEE 754 binary64 value, Rocq's primitive
      [float]: [<?] is the comparison of the language (false on NaN) and [+]
      its addition.  Array indices, array lengths and [Map.size] are integers
      a number holds exactly; they are [nat].
    - An optional property ([url?: string]) is an [option]; [None] is
      [undefined].
    - A [throw] is the [Throw] branch of the [completion] type. *)

From Stdlib Require Import Floats.PrimFloat Numbers.Cyclic.Int63.Uint63.
From stdpp Require Import gmap list strings.

Open Scope float_scope.
Open Scope nat_scope.

(** ** Strings *)

Abbreviation jsstring := (list N).

(** An ASCII literal as code units. *)
Definition js (s : string) : jsstring :=
  Ascii.N_of_ascii <$> String.list_ascii_of_string s.

(** ToBoolean on a string: only the empty string is falsy. *)
Definition truthy (s : jsstring) : bool :=
  match s with [] => false | _ => true end.

(** [s ? Some s : None] for an optional string: what a truthiness test on an
    optional property lets through. *)
Definition whenTruthy (o : option jsstring) : option jsstring :=
  match o with
  | Some s => if truthy s then Some s else None
  | None => None
  end.

(** ** The report model ([src/types/oxlint.ts]) *)

Inductive OxlintSeverity := SevError | SevWarning.

Record OxlintSpan := {
  sp_offset : float;
  sp_length : float;
  sp_line : float;
  sp_column : float;
}.

Record OxlintLabel := {
  l_label : option jsstring;
  l_span : OxlintSpan;
}.

Record OxlintRelated := {
  rel_message : option jsstring;
  rel_labels : option (list OxlintLabel);
}.

Record OxlintDiagnostic := {
  d_message : jsstring;
  d_code : jsstring;
  d_severity : OxlintSeverity;
  d_causes : list jsstring;
  d_url : option jsstring;
  d_help : option jsstring;
  d_filename : jsstring;
  d_labels : list OxlintLabel;
  d_related : list OxlintRelated;
}.

Record OxlintReport := {
  diagnostics : list OxlintDiagnostic;
  number_of_files : float;
  number_of_rules : option float;
  threads_count : float;
  start_time : float;
}.

(** ** The SARIF objects the converter builds (package [sarif]) *)

Record Region := {
  startLine : float;
  startColumn : option float;
  endColumn : option float;
}.

Record ArtifactLocation := { uri : jsstring }.

Record PhysicalLocation := {
  artifactLocation : option ArtifactLocation;
  region : option Region;
}.

Record Message := { text : option jsstring }.

Record Location := {
  loc_id : option nat;
  physicalLocation : option PhysicalLocation;
  loc_message : option Message;
}.

Record ReportingDescriptor := {
  rule_id : jsstring;
  shortDescription : Message;
  helpUri : option jsstring;
  help : option Message;
}.

Record Result := {
  level : option jsstring;
  message : Message;
  ruleId : option jsstring;
  ruleIndex : option nat;
  locations : list Location;
  relatedLocations : option (list Location);
}.

Record ToolComponent := {
  name : jsstring;
  version : option jsstring;
  informationUri : option jsstring;
  rules : list ReportingDescriptor;
}.

Record Run := {
  driver : ToolComponent;
  columnKind : option jsstring;
  results : list Result;
}.

Record Log := {
  schema : option jsstring;
  log_version : jsstring;
  runs : list Run;
}.

(** ** The builders of [node-sarif-builder]

    The converter drives the package's builders.  The package is a
    dependency, not part of the repository; its builders are modelled by what
    each call leaves in the object under construction. *)

(** Modelled from the spec: [new SarifResultBuilder()] of node-sarif-builder
    (a dependency, whose code the repository does not hold).  The fields the
    fresh builder holds for level, message text and rule id are overwritten
    by [setLevel], [setMessageText] and [setRuleId], which the converter
    calls on every result; they start absent here. *)
Definition newResult : Result :=
  {| level := None; message := {| text := None |}; ruleId := None;
     ruleIndex := None; locations := []; relatedLocations := None |}.

(** Modelled from the spec: [SarifResultBuilder.setLevel]. *)
Definition setLevel (lv : jsstring) (r : Result) : Result :=
  {| level := Some lv; message := message r; ruleId := ruleId r;
     ruleIndex := ruleIndex r; locations := locations r;
     relatedLocations := relatedLocations r |}.

(** Modelled from the spec: [SarifResultBuilder.setMessageText]. *)
Definition setMessageText (t : jsstring) (r : Result) : Result :=
  {| level := level r; message := {| text := Some t |}; ruleId := ruleId r;
     ruleIndex := ruleIndex r; locations := locations r;
     relatedLocations := relatedLocations r |}.

(** Modelled from the spec: [SarifResultBuilder.setRuleId]. *)
Definition setRuleId (rid : jsstring) (r : Result) : Result :=
  {| level := level r; message := message r; ruleId := Some rid;
     ruleIndex := ruleIndex r; locations := locations r;
     relatedLocations := relatedLocations r |}.

(** The physical location of the result's first location, created empty when
    the result has none yet, updated by [f]. *)
Definition updPhysicalLocation (f : PhysicalLocation -> PhysicalLocation)
    (r : Result) : Result :=
  let empty := {| artifactLocation := None; region := None |} in
  let upd (loc : Location) :=
    {| loc_id := loc_id loc;
       physicalLocation := Some (f (default empty (physicalLocation loc)));
       loc_message := loc_message loc |} in
  let locs :=
    match locations r with
    | [] => [upd {| loc_id := None; physicalLocation := None; loc_message := None |}]
    | loc :: rest => upd loc :: rest
    end in
  {| level := level r; message := message r; ruleId := ruleId r;
     ruleIndex := ruleIndex r; locations := locs;
     relatedLocations := relatedLocations r |}.

(** Modelled from the spec: [SarifResultBuilder.setLocationArtifactUri]. *)
Definition setLocationArtifactUri (a : ArtifactLocation) : Result -> Result :=
  updPhysicalLocation
    (fun p => {| artifactLocation := Some a; region := region p |}).

(** Modelled from the spec: [SarifResultBuilder.setLocationRegion]. *)
Definition setLocationRegion (g : Region) : Result -> Result :=
  updPhysicalLocation
    (fun p => {| artifactLocation := artifactLocation p; region := Some g |}).

(** [sarifResultBuilder.result.relatedLocations = ...], a plain assignment. *)
Definition setRelatedLocations (ls : list Location) (r : Result) : Result :=
  {| level := level r; message := message r; ruleId := ruleId r;
     ruleIndex := ruleIndex r; locations := locations r;
     relatedLocations := Some ls |}.

(** Modelled from the spec: [new SarifRuleBuilder().initSimple(...)]; the help
    URI is set only when the option is given. *)
Definition initSimple (rid shortDescriptionText : jsstring)
    (uri_opt : option jsstring) : ReportingDescriptor :=
  {| rule_id := rid; shortDescription := {| text := Some shortDescriptionText |};
     helpUri := uri_opt; help := None |}.

(** [sarifRuleBuilder.rule.help = { text }], a plain assignment. *)
Definition setRuleHelp (t : jsstring) (d : ReportingDescriptor) : ReportingDescriptor :=
  {| rule_id := rule_id d; shortDescription := shortDescription d;
     helpUri := helpUri d; help := Some {| text := Some t |} |}.

(** Modelled from the spec: [new SarifRunBuilder()], an empty run. *)
Definition newRun : Run :=
  {| driver := {| name := []; version := None; informationUri := None; rules := [] |};
     columnKind := None; results := [] |}.

Definition updDriver (f : ToolComponent -> ToolComponent) (r : Run) : Run :=
  {| driver := f (driver r); columnKind := columnKind r; results := results r |}.

(** Modelled from the spec: [SarifRunBuilder.setToolDriverName]. *)
Definition setToolDriverName (n : jsstring) : Run -> Run :=
  updDriver (fun d => {| name := n; version := version d;
                         informationUri := informationUri d; rules := rules d |}).

(** Modelled from the spec: [SarifRunBuilder.setToolDriverVersion]. *)
Definition setToolDriverVersion (v : jsstring) : Run -> Run :=
  updDriver (fun d => {| name := name d; version := Some v;
                         informationUri := informationUri d; rules := rules d |}).

(** Modelled from the spec: [SarifRunBuilder.setToolDriverUri]. *)
Definition setToolDriverUri (u : jsstring) : Run -> Run :=
  updDriver (fun d => {| name := name d; version := version d;
                         informationUri := Some u; rules := rules d |}).

(** [sarifRunBuilder.run.columnKind = ...], a plain assignment. *)
Definition setColumnKind (k : jsstring) (r : Run) : Run :=
  {| driver := driver r; columnKind := Some k; results := results r |}.

(** Modelled from the spec: [SarifRunBuilder.addRule] appends the descriptor
    to [tool.driver.rules]. *)
Definition addRule (d : ReportingDescriptor) : Run -> Run :=
  updDriver (fun c => {| name := name c; version := version c;
                         informationUri := informationUri c;
                         rules := rules c ++ [d] |}).

(** Modelled from the spec: [SarifRunBuilder.addResult] appends the result to
    [results]. *)
Definition addResult (x : Result) (r : Run) : Run :=
  {| driver := driver r; columnKind := columnKind r; results := results r ++ [x] |}.

(** The index the finished log gives each rule id: position in the rules
    list, a later descriptor with the same id replacing an earlier one. *)
Fixpoint rulesIndexes (i : nat) (rs : list ReportingDescriptor)
    (m : gmap jsstring nat) : gmap jsstring nat :=
  match rs with
  | [] => m
  | r :: rs' => rulesIndexes (S i) rs' (<[rule_id r := i]> m)
  end.

Definition setRuleIndex (idx : gmap jsstring nat) (x : Result) : Result :=
  match ruleId x with
  | Some rid =>
      if truthy rid then
        match idx !! rid with
        | Some k =>
            {| level := level x; message := message x; ruleId := ruleId x;
               ruleIndex := Some k; locations := locations x;
               relatedLocations := relatedLocations x |}
        | None => x
        end
      else x
  | None => x
  end.

(** Modelled from the spec: [new SarifBuilder({ $schema })], [addRun] and
    [buildSarifOutput] of node-sarif-builder (a dependency, whose code the
    repository does not hold): the log of version 2.1.0 with the given schema
    and the one run.  The converter never writes [ruleIndex] itself; the
    specification (4.2, step 4) gives every result the registry index of its
    rule, and the finished log carries it: each result whose rule id has a
    descriptor in [tool.driver.rules] receives that descriptor's position.
    The artifacts table the package also derives from the result locations
    is not part of the model. *)
Definition buildSarifOutput (sch : jsstring) (r : Run) : Log :=
  let idx := rulesIndexes 0 (rules (driver r)) ∅ in
  {| schema := Some sch; log_version := js "2.1.0";
     runs := [ {| driver := driver r; columnKind := columnKind r;
                  results := setRuleIndex idx <$> results r |} ] |}.

(** ** The converter ([src/converter.ts]) *)

Definition SARIF_SCHEMA : jsstring :=
  js "https://docs.oasis-open.org/sarif/sarif/v2.1.0/cos02/schemas/sarif-schema-2.1.0.json".

(** Maps an oxlint severity to a SARIF result level. *)
Definition mapSeverityToLevel (severity : OxlintSeverity) : jsstring :=
  match severity with
  | SevError => js "error"
  | SevWarning => js "warning"
  end.

(** [a-zA-Z] on a code unit. *)
Definition isAsciiLetter (c : N) : bool :=
  ((65 <=? c) && (c <=? 90) || (97 <=? c) && (c <=? 122))%N.

(** [/^[a-zA-Z]:\//.test(s)]: a letter, a colon (58), a slash (47). *)
Definition isWindowsAbsolute (s : jsstring) : bool :=
  match s with
  | c :: 58%N :: 47%N :: _ => isAsciiLetter c
  | _ => false
  end.

(** Converts a file path to a URI: backslashes (92) become slashes (47);
    absolute paths get a file scheme, relative paths stay as they are. *)
Definition pathToUri (filePath : jsstring) : jsstring :=
  let normalized := (fun c => if (c =? 92)%N then 47%N else c) <$> filePath in
  if isWindowsAbsolute normalized then js "file:///" ++ normalized
  else match normalized with
       | 47%N :: _ => js "file://" ++ normalized
       | _ => normalized
       end.

(** Builds a SARIF region from an oxlint span. *)
Definition buildRegion (span : OxlintSpan) : Region :=
  {| startLine := sp_line span;
     startColumn := if (0 <? sp_column span)%float then Some (sp_column span) else None;
     endColumn := if (0 <? sp_length span)%float
                  then Some (sp_column span + sp_length span)%float else None |}.

(** Builds a SARIF location from a label, for use in relatedLocations.
    [if (label.label)] lets a non-empty text through. *)
Definition buildRelatedLocation (label : OxlintLabel) (filename : jsstring)
    (id : nat) : Location :=
  {| loc_id := Some id;
     physicalLocation :=
       Some {| artifactLocation := Some {| uri := pathToUri filename |};
               region := Some (buildRegion (l_span label)) |};
     loc_message :=
       match whenTruthy (l_label label) with
       | Some t => Some {| text := Some t |}
       | None => None
       end |}.

(** [diagnostic.code || 'UnknownRule']. *)
Definition ruleIdOf (diagnostic : OxlintDiagnostic) : jsstring :=
  if truthy (d_code diagnostic) then d_code diagnostic else js "UnknownRule".

(** The descriptor registered for a diagnostic whose rule is new. *)
Definition ruleOf (diagnostic : OxlintDiagnostic) : ReportingDescriptor :=
  let ruleId := ruleIdOf diagnostic in
  let sarifRuleBuilder := initSimple ruleId ruleId (whenTruthy (d_url diagnostic)) in
  match whenTruthy (d_help diagnostic) with
  | Some h => setRuleHelp h sarifRuleBuilder
  | None => sarifRuleBuilder
  end.

(** The result built for one diagnostic, as it is handed to [addResult]. *)
Definition resultOf (diagnostic : OxlintDiagnostic) : Result :=
  let ruleId := ruleIdOf diagnostic in
  let level := mapSeverityToLevel (d_severity diagnostic) in
  let fileUri := pathToUri (d_filename diagnostic) in
  let messageText :=
    match whenTruthy (d_help diagnostic) with
    | Some h => d_message diagnostic ++ [10%N] ++ h
    | None => d_message diagnostic
    end in
  let b := setLevel level newResult in
  let b := setMessageText messageText b in
  let b := setRuleId ruleId b in
  let b := setLocationArtifactUri {| uri := fileUri |} b in
  let b :=
    match d_labels diagnostic with
    | first :: _ => setLocationRegion (buildRegion (l_span first)) b
    | [] => b
    end in
  match d_labels diagnostic with
  | _ :: ((_ :: _) as rest) =>
      setRelatedLocations
        (imap (fun idx lbl => buildRelatedLocation lbl (d_filename diagnostic) (idx + 1))
              rest) b
  | _ => b
  end.

(** The state the loop of [convertToSarif] updates: the rule registry
    [ruleIndexMap] and the run under construction. *)
Record LoopState := {
  ruleIndexMap : gmap jsstring nat;
  sarifRunBuilder : Run;
}.

(** One iteration of [for (const diagnostic of report.diagnostics)]. *)
Definition loopBody (st : LoopState) (diagnostic : OxlintDiagnostic) : LoopState :=
  let ruleId := ruleIdOf diagnostic in
  let st :=
    match ruleIndexMap st !! ruleId with
    | Some _ => st
    | None =>
        {| ruleIndexMap := <[ruleId := size (ruleIndexMap st)]> (ruleIndexMap st);
           sarifRunBuilder := addRule (ruleOf diagnostic) (sarifRunBuilder st) |}
    end in
  {| ruleIndexMap := ruleIndexMap st;
     sarifRunBuilder := addResult (resultOf diagnostic) (sarifRunBuilder st) |}.

(** The run builder before the loop. *)
Definition initialRun (toolVersion : option jsstring) : Run :=
  let b := setToolDriverName (js "oxlint") newRun in
  let b :=
    match whenTruthy toolVersion with
    | Some v => setToolDriverVersion v b
    | None => b
    end in
  let b := setToolDriverUri (js "https://oxc.rs/docs/guide/usage/linter") b in
  setColumnKind (js "utf16CodeUnits") b.

(** The loop over the diagnostics, from the empty registry. *)
Definition convertLoop (report : OxlintReport) (toolVersion : option jsstring)
    : LoopState :=
  foldl loopBody
    {| ruleIndexMap := ∅; sarifRunBuilder := initialRun toolVersion |}
    (diagnostics report).

(** Converts a report to a SARIF log. *)
Definition convertToSarif (report : OxlintReport) (toolVersion : option jsstring)
    : Log :=
  buildSarifOutput SARIF_SCHEMA (sarifRunBuilder (convertLoop report toolVersion)).

(** ** Decoded JSON values and the host's built-ins *)

(** A value [JSON.parse] returns.  An object is its own properties, looked up
    by key (first binding). *)
#[warnings="-register-all"]
Inductive JSON :=
| JNull
| JBool (b : bool)
| JNum (x : float)
| JStr (s : jsstring)
| JArr (items : list JSON)
| JObj (fields : list (jsstring * JSON)).

(** Lower-casing of an ASCII code unit. *)
Definition asciiLower (c : N) : N :=
  if ((65 <=? c) && (c <=? 90))%N then (c + 32)%N else c.

(** The built-ins of the language the parser calls and this development does
    not define: the JSON decoder (with the type of the error it throws), the
    conversions between numbers and strings, and
    [String.prototype.toLowerCase], of which only the action on ASCII strings
    is fixed here. *)
Class Host := {
  DecodeError : Type;
  JSON_parse : jsstring -> DecodeError + JSON;
  StringToNumber : jsstring -> float;
  NumberToString : float -> jsstring;
  toLowerCase : jsstring -> jsstring;
  toLowerCase_ascii :
    ∀ s, Forall (fun c => (c < 128)%N) s → toLowerCase s = asciiLower <$> s;
}.

(** What a call can throw: the three errors [parseOxlintJson] raises itself
    (EmptyInput: 'Input JSON content is empty'; MalformedJson: 'Failed to
    parse JSON: ...' with the decoder's error as cause; InvalidShape:
    'Invalid oxlint JSON: missing diagnostics array'), and the TypeError of
    the language's ToPrimitive ('Cannot convert object to primitive value'). *)
Inductive Thrown (E : Type) :=
| EmptyInput
| MalformedJson (cause : E)
| InvalidShape
| ToPrimitiveTypeError.
Arguments EmptyInput {E}.
Arguments MalformedJson {E} cause.
Arguments InvalidShape {E}.
Arguments ToPrimitiveTypeError {E}.

(** The outcome of a call: a value, or a thrown error. *)
Inductive completion (E A : Type) :=
| Return (a : A)
| Throw (e : Thrown E).
Arguments Return {E A} a.
Arguments Throw {E A} e.

Definition bind {E A B} (c : completion E A) (k : A -> completion E B)
    : completion E B :=
  match c with
  | Return a => k a
  | Throw e => Throw e
  end.

Notation "'do' x <- c ; k" := (bind c (fun x => k))
  (at level 10, x name, c at level 100, k at level 200).

(** [xs.map(f)] where [f] may throw: left to right, stopping at the first throw. *)
Fixpoint mapM {E A B} (f : A -> completion E B) (xs : list A)
    : completion E (list B) :=
  match xs with
  | [] => Return []
  | x :: rest =>
      do y <- f x;
      do ys <- mapM f rest;
      Return (y :: ys)
  end.

(** Own property lookup. *)
Fixpoint assoc (k : jsstring) (fields : list (jsstring * JSON)) : option JSON :=
  match fields with
  | [] => None
  | (k', v) :: rest => if decide (k = k') then Some v else assoc k rest
  end.

(** A length or a small integer as a number. *)
Definition numberOfNat (n : nat) : float :=
  PrimFloat.of_uint63 (Uint63.of_Z (Z.of_nat n)).

(** [v.k] on a value that is neither null nor undefined, for the keys the
    parser reads.  None of them is an array index or a member of a built-in
    prototype, except [length], which arrays and strings have. *)
Definition getProp (v : JSON) (k : jsstring) : option JSON :=
  match v with
  | JObj fields => assoc k fields
  | JArr items =>
      if decide (k = js "length") then Some (JNum (numberOfNat (length items))) else None
  | JStr s =>
      if decide (k = js "length") then Some (JNum (numberOfNat (length s))) else None
  | _ => None
  end.

(** [o?.k]: undefined when [o] is null or undefined. *)
Definition optChain (o : option JSON) (k : jsstring) : option JSON :=
  match o with
  | None | Some JNull => None
  | Some v => getProp v k
  end.

(** [o ?? dflt]: the default when [o] is null or undefined. *)
Definition coalesce (o : option JSON) (dflt : JSON) : JSON :=
  match o with
  | None | Some JNull => dflt
  | Some v => v
  end.

(** [typeof v === 'object'] and [v] is not null: objects and arrays. *)
Definition isObject (v : JSON) : bool :=
  match v with
  | JObj _ | JArr _ => true
  | _ => false
  end.

(** [k in v] for an object or an array [v]. *)
Definition hasProperty (k : jsstring) (v : JSON) : bool :=
  match getProp v k with Some _ => true | None => false end.

Section Coercions.
Context `{H : Host}.

(** [String(v)].  An object converts through its [toString] method: the
    inherited one gives '[object Object]'; an own property of that name,
    which in a decoded document is never callable, leaves no method that
    returns a primitive ([valueOf] returns the object itself), and the
    conversion throws a TypeError.  An array joins its elements with commas
    (44), null elements as the empty string.  The engine's bound on the depth
    of nested calls, which ends the conversion of arrays nested some
    thousands deep with a RangeError, is not part of the model. *)
Fixpoint ToString (v : JSON) : completion DecodeError jsstring :=
  match v with
  | JNull => Return (js "null")
  | JBool true => Return (js "true")
  | JBool false => Return (js "false")
  | JNum x => Return (NumberToString x)
  | JStr s => Return s
  | JArr items =>
      let element (x : JSON) :=
        match x with
        | JNull => Return []
        | _ => ToString x
        end in
      (fix join (l : list JSON) : completion DecodeError jsstring :=
         match l with
         | [] => Return []
         | [x] => element x
         | x :: rest =>
             do s <- element x;
             do r <- join rest;
             Return (s ++ [44%N] ++ r)
         end) items
  | JObj fields =>
      match assoc (js "toString") fields with
      | Some _ => Throw ToPrimitiveTypeError
      | None => Return (js "[object Object]")
      end
  end.

(** [Number(v)]: objects and arrays convert through their string. *)
Definition ToNumber (v : JSON) : completion DecodeError float :=
  match v with
  | JNull => Return 0%float
  | JBool true => Return 1%float
  | JBool false => Return 0%float
  | JNum x => Return x
  | JStr s => Return (StringToNumber s)
  | JArr _ | JObj _ =>
      do s <- ToString v;
      Return (StringToNumber s)
  end.

End Coercions.

(** ** The parser ([src/parser.ts]) *)

(** WhiteSpace and LineTerminator code units, which [String.prototype.trim]
    strips: tab, LF, VT, FF, CR, space, NBSP, U+1680, U+2000..U+200A, U+2028,
    U+2029, U+202F, U+205F, U+3000, U+FEFF. *)
Definition isWhiteSpace (c : N) : bool :=
  ((9 <=? c) && (c <=? 13) || (c =? 32) || (c =? 160) || (c =? 5760)
   || (8192 <=? c) && (c <=? 8202) || (c =? 8232) || (c =? 8233)
   || (c =? 8239) || (c =? 8287) || (c =? 12288) || (c =? 65279))%N.

Fixpoint trimStart (s : jsstring) : jsstring :=
  match s with
  | c :: rest => if isWhiteSpace c then trimStart rest else s
  | [] => []
  end.

(** [s.trim()]. *)
Definition trim (s : jsstring) : jsstring :=
  reverse (trimStart (reverse (trimStart s))).

Section Parser.
Context `{H : Host}.

(** [Number(o ?? dflt)]. *)
Definition numberOr (o : option JSON) (dflt : float) : completion DecodeError float :=
  ToNumber (coalesce o (JNum dflt)).

(** [String(o ?? dflt)]. *)
Definition stringOr (o : option JSON) (dflt : jsstring) : completion DecodeError jsstring :=
  ToString (coalesce o (JStr dflt)).

(** [o === undefined ? undefined : String(o)]. *)
Definition optionalString (o : option JSON) : completion DecodeError (option jsstring) :=
  match o with
  | None => Return None
  | Some v => do s <- ToString v; Return (Some s)
  end.

(** Parses a raw label object into a typed label. *)
Definition parseLabel (l : JSON) : completion DecodeError OxlintLabel :=
  let span := getProp l (js "span") in
  do offset <- numberOr (optChain span (js "offset")) 0%float;
  do length <- numberOr (optChain span (js "length")) 0%float;
  do line <- numberOr (optChain span (js "line")) 1%float;
  do column <- numberOr (optChain span (js "column")) 1%float;
  Return {| l_label := match getProp l (js "label") with
                       | Some (JStr s) => Some s
                       | _ => None
                       end;
            l_span := {| sp_offset := offset; sp_length := length;
                         sp_line := line; sp_column := column |} |}.

(** Filters and parses a raw labels array; undefined when it is no array. *)
Definition parseLabels (raw : option JSON)
    : completion DecodeError (option (list OxlintLabel)) :=
  match raw with
  | Some (JArr items) =>
      do ls <- mapM parseLabel (filter (fun l => isObject l = true) items);
      Return (Some ls)
  | _ => Return None
  end.

(** Type guard: the decoded value is an object whose [diagnostics] is an array. *)
Definition isOxlintReport (value : JSON) : bool :=
  isObject value &&
  match getProp value (js "diagnostics") with
  | Some (JArr _) => true
  | _ => false
  end.

(** Type guard: the value is an object with the four keys of a diagnostic. *)
Definition isOxlintDiagnostic (value : JSON) : bool :=
  isObject value &&
  hasProperty (js "message") value &&
  hasProperty (js "code") value &&
  hasProperty (js "severity") value &&
  hasProperty (js "filename") value.

(** Normalizes a severity string. *)
Definition normalizeOxlintSeverity (severity : jsstring) : OxlintSeverity :=
  let s := toLowerCase severity in
  if decide (s = js "error") then SevError
  else if decide (s = js "warning") then SevWarning
  else if decide (s = js "warn") then SevWarning
  else SevWarning.

(** The callback mapped over the entries of [related]. *)
Definition parseRelated (r : JSON) : completion DecodeError OxlintRelated :=
  do m <- optionalString (getProp r (js "message"));
  do ls <- parseLabels (getProp r (js "labels"));
  Return {| rel_message := m; rel_labels := ls |}.

(** The callback mapped over the admitted entries of [diagnostics]. *)
Definition parseDiagnostic (d : JSON) : completion DecodeError OxlintDiagnostic :=
  do message <- stringOr (getProp d (js "message")) [];
  do code <- stringOr (getProp d (js "code")) [];
  do severity <- stringOr (getProp d (js "severity")) (js "warning");
  do causes <- match getProp d (js "causes") with
               | Some (JArr items) => mapM ToString items
               | _ => Return []
               end;
  do url <- optionalString (getProp d (js "url"));
  do help <- optionalString (getProp d (js "help"));
  do filename <- stringOr (getProp d (js "filename")) [];
  do labels <- parseLabels (getProp d (js "labels"));
  do related <- match getProp d (js "related") with
                | Some (JArr items) =>
                    mapM parseRelated (filter (fun r => isObject r = true) items)
                | _ => Return []
                end;
  Return {| d_message := message; d_code := code;
            d_severity := normalizeOxlintSeverity severity;
            d_causes := causes; d_url := url; d_help := help;
            d_filename := filename; d_labels := default [] labels;
            d_related := related |}.

(** The entries of [parsed.diagnostics]. *)
Definition rawDiagnostics (parsed : JSON) : list JSON :=
  match getProp parsed (js "diagnostics") with
  | Some (JArr items) => items
  | _ => []
  end.

(** Parses an oxlint JSON string into a report. *)
Definition parseOxlintJson (jsonContent : jsstring)
    : completion DecodeError OxlintReport :=
  let trimmedContent := trim jsonContent in
  if decide (trimmedContent = []) then Throw EmptyInput
  else
    match JSON_parse jsonContent with
    | inl err => Throw (MalformedJson err)
    | inr parsed =>
        if negb (isOxlintReport parsed) then Throw InvalidShape
        else
          do ds <- mapM parseDiagnostic
                     (filter (fun d => isOxlintDiagnostic d = true) (rawDiagnostics parsed));
          do files <- numberOr (getProp parsed (js "number_of_files")) 0%float;
          do rules_ <- match getProp parsed (js "number_of_rules") with
                       | None | Some JNull => Return None
                       | Some v => do n <- ToNumber v; Return (Some n)
                       end;
          do threads <- numberOr (getProp parsed (js "threads_count")) 1%float;
          do start <- numberOr (getProp parsed (js "start_time")) 0%float;
          Return {| diagnostics := ds; number_of_files := files;
                    number_of_rules := rules_; threads_count := threads;
                    start_time := start |}
    end.

End Parser.

(** ** A host for the examples

    Decodes the listed documents and nothing else; lower-cases ASCII letters;
    its number conversions are placeholders (NaN and 'NaN'). *)

Definition tableHost (table : list (jsstring * JSON)) : Host :=
  {| DecodeError := unit;
     JSON_parse := fun s => match assoc s table with
                            | Some v => inr v
                            | None => inl tt
                            end;
     StringToNumber := fun _ => PrimFloat.nan;
     NumberToString := fun _ => js "NaN";
     toLowerCase := fun s => asciiLower <$> s;
     toLowerCase_ascii := fun s _ => eq_refl |}.

(** A double-quoted JSON string token (34 is the quote). *)
Definition jq (s : string) : jsstring := [34%N] ++ js s ++ [34%N].

(** The document
    { diagnostics: [ { message: { toString: 1 }, code: 'r1',
                       severity: 'error', filename: 'a.ts' } ] }
    as text and as decoded value: its one diagnostic has the four keys, and
    its message is an object with an own [toString] property. *)
Definition exToStringText : jsstring :=
  js "{" ++ jq "diagnostics" ++ js ":[{" ++ jq "message" ++ js ":{" ++
  jq "toString" ++ js ":1}," ++ jq "code" ++ js ":" ++ jq "r1" ++ js "," ++
  jq "severity" ++ js ":" ++ jq "error" ++ js "," ++ jq "filename" ++ js ":" ++
  jq "a.ts" ++ js "}]}".

Definition exToStringDoc : JSON :=
  JObj [ (js "diagnostics",
          JArr [ JObj [ (js "message", JObj [ (js "toString", JNum 1) ]);
                        (js "code", JStr (js "r1"));
                        (js "severity", JStr (js "error"));
                        (js "filename", JStr (js "a.ts")) ] ]) ].

(** The document { diagnostics: [], number_of_files: { toString: null } }. *)
Definition exFilesText : jsstring :=
  js "{" ++ jq "diagnostics" ++ js ":[]," ++ jq "number_of_files" ++ js ":{" ++
  jq "toString" ++ js ":null}}".

Definition exFilesDoc : JSON :=
  JObj [ (js "diagnostics", JArr []);
         (js "number_of_files", JObj [ (js "toString", JNull) ]) ].

(** The document
    { diagnostics: [ { message: 'm', code: 'r1', severity: 'ERROR',
                       filename: 'a.ts' },
                     { message: 'm', code: 'r2', severity: null,
                       filename: 'a.ts',
                       labels: [ { span: { offset: true, line: 7 }, label: 'x' } ] },
                     { message: 'dropped' } ] }. *)
Definition exSeverityText : jsstring :=
  js "{" ++ jq "diagnostics" ++ js ":[{" ++ jq "message" ++ js ":" ++ jq "m" ++
  js "," ++ jq "code" ++ js ":" ++ jq "r1" ++ js "," ++ jq "severity" ++ js ":" ++
  jq "ERROR" ++ js "," ++ jq "filename" ++ js ":" ++ jq "a.ts" ++ js "},{" ++
  jq "message" ++ js ":" ++ jq "m" ++ js "," ++ jq "code" ++ js ":" ++ jq "r2" ++
  js "," ++ jq "severity" ++ js ":null," ++ jq "filename" ++ js ":" ++ jq "a.ts" ++
  js "," ++ jq "labels" ++ js ":[{" ++ jq "span" ++ js ":{" ++ jq "offset" ++
  js ":true," ++ jq "line" ++ js ":7}," ++ jq "label" ++ js ":" ++ jq "x" ++
  js "}]},{" ++ jq "message" ++ js ":" ++ jq "dropped" ++ js "}]}".

(** The label { span: { offset: true, line: 7 }, label: 'x' }. *)
Definition exBoolOffsetLabel : JSON :=
  JObj [ (js "span", JObj [ (js "offset", JBool true); (js "line", JNum 7) ]);
         (js "label", JStr (js "x")) ].

Definition exSeverityDoc : JSON :=
  JObj [ (js "diagnostics",
          JArr [ JObj [ (js "message", JStr (js "m")); (js "code", JStr (js "r1"));
                        (js "severity", JStr (js "ERROR"));
                        (js "filename", JStr (js "a.ts")) ];
                 JObj [ (js "message", JStr (js "m")); (js "code", JStr (js "r2"));
                        (js "severity", JNull);
                        (js "filename", JStr (js "a.ts"));
                        (js "labels", JArr [ exBoolOffsetLabel ]) ];
                 JObj [ (js "message", JStr (js "dropped")) ] ]) ].

(** The host of the examples. *)
Definition exHost : Host :=
  tableHost [ (exToStringText, exToStringDoc); (exFilesText, exFilesDoc);
              (exSeverityText, exSeverityDoc) ].

(** ** Specification-side notions for the converter *)

(** The diagnostics that introduce a rule id not in [seen], in input order:
    the first-seen deduplication of the specification (4.2, step 3). *)
Fixpoint firstSeen (seen : list jsstring) (ds : list OxlintDiagnostic)
    : list OxlintDiagnostic :=
  match ds with
  | [] => []
  | d :: rest =>
      if decide (ruleIdOf d ∈ seen) then firstSeen seen rest
      else d :: firstSeen (seen ++ [ruleIdOf d]) rest
  end.

(** Two reports agree on everything but the [causes] and [related] of their
    diagnostics. *)
Definition sameExceptCausesRelated (r1 r2 : OxlintReport) : Prop :=
  number_of_files r1 = number_of_files r2 ∧
  number_of_rules r1 = number_of_rules r2 ∧
  threads_count r1 = threads_count r2 ∧
  start_time r1 = start_time r2 ∧
  Forall2 (fun d1 d2 =>
             d_message d1 = d_message d2 ∧ d_code d1 = d_code d2 ∧
             d_severity d1 = d_severity d2 ∧ d_url d1 = d_url d2 ∧
             d_help d1 = d_help d2 ∧ d_filename d1 = d_filename d2 ∧
             d_labels d1 = d_labels d2)
          (diagnostics r1) (diagnostics r2).

(** The registry invariant of the loop: the map sends an id to [k] exactly
    when the [k]-th descriptor of the run carries that id, and its size is
    the number of descriptors. *)
Definition registryInv (st : LoopState) : Prop :=
  let rs := rules (driver (sarifRunBuilder st)) in
  size (ruleIndexMap st) = length rs ∧
  ∀ id k, ruleIndexMap st !! id = Some k ↔
          ∃ r, rs !! k = Some r ∧ rule_id r = id.

(** A result with its [ruleIndex] set. *)
Definition withRuleIndex (k : nat) (x : Result) : Result :=
  {| level := level x; message := message x; ruleId := ruleId x;
     ruleIndex := Some k; locations := locations x;
     relatedLocations := relatedLocations x |}.

(** [l.span?.k], the raw value of a span field of a label. *)
Definition rawSpanField (l : JSON) (k : jsstring) : option JSON :=
  optChain (getProp l (js "span")) k.

(** Null or undefined. *)
Definition nullish (o : option JSON) : Prop := o = None ∨ o = Some JNull.

(** Splits a hypothesis [do x <- c; k = Return b] into its steps, by the
    inversion lemma [lem] of [bind]. *)
Ltac inv_bind lem H :=
  repeat
    (let a := fresh "a" in
     let Ha := fresh "Ha" in
     apply lem in H as (a & Ha & H)).

(** A call that throws nothing but the TypeError of ToPrimitive. *)
Definition throwsOnlyTypeError {E A} (c : completion E A) : Prop :=
  ∀ e, c = Throw e → e = ToPrimitiveTypeError.

(** An object or array that has the four keys of a diagnostic. *)
Definition hasDiagnosticKeys (v : JSON) : Prop :=
  isObject v = true ∧
  Forall (fun k => is_Some (getProp v k))
         [js "message"; js "code"; js "severity"; js "filename"].

(** ** Example data *)

Definition exSpan (length line column : float) : OxlintSpan :=
  {| sp_offset := 0; sp_length := length; sp_line := line; sp_column := column |}.

Definition exDiagnostic (code : jsstring) (url help : option jsstring)
    (labels : list OxlintLabel) : OxlintDiagnostic :=
  {| d_message := js "m"; d_code := code; d_severity := SevError;
     d_causes := []; d_url := url; d_help := help; d_filename := js "src/a.ts";
     d_labels := labels; d_related := [] |}.

Definition exReportOf (ds : list OxlintDiagnostic) : OxlintReport :=
  {| diagnostics := ds; number_of_files := 1; number_of_rules := None;
     threads_count := 1; start_time := 0 |}.

(** Two rules, the first used twice; one, two and no labels. *)
Definition exReport : OxlintReport :=
  exReportOf
    [ exDiagnostic (js "r1") (Some (js "https://example.com/r1")) None
        [ {| l_label := None; l_span := exSpan 5 1 1 |} ];
      exDiagnostic [] None (Some (js "fix it"))
        [ {| l_label := Some (js "first"); l_span := exSpan 5 1 0 |};
          {| l_label := Some (js "second"); l_span := exSpan 0 7 3 |} ];
      exDiagnostic (js "r1") None None [] ].

(** A diagnostic whose [url] is present and empty. *)
Definition exEmptyUrlReport : OxlintReport :=
  exReportOf [ exDiagnostic (js "r1") (Some []) None [] ].

(** A diagnostic whose second label carries an empty text. *)
Definition exEmptyLabelReport : OxlintReport :=
  exReportOf
    [ exDiagnostic (js "r1") None None
        [ {| l_label := None; l_span := exSpan 5 1 1 |};
          {| l_label := Some []; l_span := exSpan 2 3 4 |} ] ].

(** [exReport] with other [causes] and [related]. *)
Definition exReport' : OxlintReport :=
  exReportOf
    ((fun d =>
        {| d_message := d_message d; d_code := d_code d;
           d_severity := d_severity d; d_causes := [js "because"];
           d_url := d_url d; d_help := d_help d; d_filename := d_filename d;
           d_labels := d_labels d;
           d_related := [ {| rel_message := Some (js "see"); rel_labels := None |} ] |})
       <$> diagnostics exReport).

(** ** The package entry point ([src/index.ts]) *)

Section EntryPoint.
Context `{H : Host}.

(** [JSON.stringify(sarif, null, indent)], a built-in. *)
Variable JSON_stringify : Log -> float -> jsstring.

(** Converts an oxlint JSON string to SARIF JSON text; [indent] defaults to 2.
    The converter is called without a tool version. *)
Definition convertOxlintToSarif (jsonContent : jsstring) (indent : option float)
    : completion DecodeError jsstring :=
  do report <- parseOxlintJson jsonContent;
  let sarif := convertToSarif report None in
  Return (JSON_stringify sarif (default 2%float indent)).

(** ** The command line ([src/cli.ts])

    The command line is run in an environment that answers each call: what
    [program.parse()] makes of the arguments, the file system, the terminal
    and the standard input.  An I/O error is the message the handler prints
    ([err instanceof Error ? err.message : String(err)]).  A run is the list
    of its actions, in order. *)

(** [String(err)] of the decoder's error, and the message of the TypeError of
    ToPrimitive, both fixed by the host. *)
Variable errorString : DecodeError -> jsstring.
Variable typeErrorMessage : jsstring.

(** The message of what [parseOxlintJson] throws. *)
Definition errorMessage (e : Thrown DecodeError) : jsstring :=
  match e with
  | EmptyInput => js "Input JSON content is empty"
  | MalformedJson cause => js "Failed to parse JSON: " ++ errorString cause
  | InvalidShape =>
      js "Invalid oxlint JSON: missing " ++ jq "diagnostics" ++ js " array"
  | ToPrimitiveTypeError => typeErrorMessage
  end.

Inductive Action :=
| ReadFile (path : jsstring)
| ReadStdin
| WriteFile (path content : jsstring)
| WriteStdout (s : jsstring)
| WriteStderr (s : jsstring)
| Exit (code : nat).

(** [program_parse] is the outcome of [program.parse()], which commander, a
    dependency, decides from the arguments.  Either it returns ([None]), and
    [program.opts()] then holds [opt_input] and [opt_output]; or commander
    ends the process itself ([Some actions], with what it printed and its
    exit): after --help or --version, or after an unknown option or an option
    without its argument. *)
Record CliEnv := {
  program_parse : option (list Action);
  opt_input : option jsstring;
  opt_output : option jsstring;
  readFile : jsstring -> jsstring + jsstring;
  stdin_isTTY : bool;
  readStdin : jsstring + jsstring;
  writeFile : jsstring -> jsstring -> option jsstring;
}.

(** The usage error printed when there is no input. *)
Definition usageMessage : jsstring :=
  js "Error: No input provided. Use --input <path> or pipe input via stdin." ++ [10%N] ++
  js "Example: npx oxlint-json-to-sarif --input oxlint-output.json" ++ [10%N] ++
  js "         oxlint --format json | npx oxlint-json-to-sarif" ++ [10%N].

(** The part of [main] after the input is read: convert, then write. *)
Definition convertAndWrite (env : CliEnv) (jsonContent : jsstring) : list Action :=
  match convertOxlintToSarif jsonContent None with
  | Throw e =>
      [ WriteStderr (js "Error: Conversion failed: " ++ errorMessage e ++ [10%N]);
        Exit 1 ]
  | Return sarifOutput =>
      match whenTruthy (opt_output env) with
      | Some path =>
          match writeFile env path sarifOutput with
          | None => [ WriteFile path sarifOutput ]
          | Some message =>
              [ WriteFile path sarifOutput;
                WriteStderr (js "Error: Cannot write output file " ++ [34%N] ++ path ++
                             [34%N] ++ js ": " ++ message ++ [10%N]);
                Exit 1 ]
          end
      | None => [ WriteStdout (sarifOutput ++ [10%N]) ]
      end
  end.

(** [main]: parse the arguments, where commander may end the process; read
    the input from the file, or from the piped standard input; convert; write
    to the file, or to the standard output.  Every failure of these later
    steps prints a message on the standard error and exits with code 1. *)
Definition main (env : CliEnv) : list Action :=
  match program_parse env with
  | Some ended => ended
  | None =>
      match whenTruthy (opt_input env) with
      | Some path =>
          match readFile env path with
          | inr jsonContent => ReadFile path :: convertAndWrite env jsonContent
          | inl message =>
              [ ReadFile path;
                WriteStderr (js "Error: Cannot read input file " ++ [34%N] ++ path ++
                             [34%N] ++ js ": " ++ message ++ [10%N]);
                Exit 1 ]
          end
      | None =>
          if stdin_isTTY env then [ WriteStderr usageMessage; Exit 1 ]
          else
            match readStdin env with
            | inr jsonContent => ReadStdin :: convertAndWrite env jsonContent
            | inl message =>
                [ ReadStdin;
                  WriteStderr (js "Error: Failed to read from stdin: " ++ message ++
                               [10%N]);
                  Exit 1 ]
            end
      end
  end.

End EntryPoint.

(** The exit code of a run: the code of its [Exit], 0 when it ends by itself. *)
Fixpoint exitCode (run : list Action) : nat :=
  match run with
  | [] => 0
  | Exit code :: _ => code
  | _ :: rest => exitCode rest
  end.

(** What a run writes on the standard output, and the file writes it makes. *)
Fixpoint stdoutOf (run : list Action) : jsstring :=
  match run with
  | [] => []
  | WriteStdout s :: rest => s ++ stdoutOf rest
  | _ :: rest => stdoutOf rest
  end.

Fixpoint stderrOf (run : list Action) : jsstring :=
  match run with
  | [] => []
  | WriteStderr s :: rest => s ++ stderrOf rest
  | _ :: rest => stderrOf rest
  end.

Definition isRead (a : Action) : bool :=
  match a with ReadFile _ | ReadStdin => true | _ => false end.

Definition isFileWrite (a : Action) : bool :=
  match a with WriteFile _ _ => true | _ => false end.

(** ** Further specification-side notions *)

(** [replaceAll] of backslashes (92) by slashes (47). *)
Definition slashes (p : jsstring) : jsstring :=
  (fun c => if (c =? 92)%N then 47%N else c) <$> p.

(** The span of a label that gives no span field. *)
Definition defaultSpan : OxlintSpan :=
  {| sp_offset := 0; sp_length := 0; sp_line := 1; sp_column := 1 |}.

(** A label whose span is the string abc. *)
Definition exStringSpanLabel : JSON :=
  JObj [ (js "span", JStr (js "abc")) ].

(** Two reports, the second with more diagnostics after those of the first. *)
Definition exReportTail : OxlintReport :=
  exReportOf
    (diagnostics exReport ++
     [ exDiagnostic (js "r9") None None [];
       exDiagnostic (js "r1") (Some (js "https://example.com/other")) None [] ]).

(** An environment with no input option and a terminal as standard input,
    and one that reads exSeverityText from a file and writes to a file; in
    both the arguments are parsed without commander ending the process. *)
Definition exTtyEnv : CliEnv :=
  {| program_parse := None; opt_input := None; opt_output := None;
     readFile := fun _ => inl (js "ENOENT"); stdin_isTTY := true;
     readStdin := inl (js "closed"); writeFile := fun _ _ => None |}.

Definition exFileEnv : CliEnv :=
  {| program_parse := None;
     opt_input := Some (js "in.json"); opt_output := Some (js "out.sarif");
     readFile := fun _ => inr exSeverityText; stdin_isTTY := true;
     readStdin := inl (js "closed"); writeFile := fun _ _ => None |}.

(** A message of the command line: it starts with Error: and ends with a
    line feed. *)
Definition isErrorMessage (msg : jsstring) : Prop :=
  js "Error: " `prefix_of` msg ∧ [10%N] `suffix_of` msg.

(** Stand-ins for the host's JSON.stringify and error texts in the examples. *)
Definition exStringify (log : Log) (indent : float) : jsstring := js "{}".

Definition exErrorString (e : unit) : jsstring := js "SyntaxError".

(** Refutes a membership [Hin : a ∈ l] in a list of other actions. *)
Ltac not_among Hin :=
  repeat (apply elem_of_cons in Hin as [Hin|Hin]; [discriminate Hin|]);
  by apply not_elem_of_nil in Hin.

(** * Properties *)

(** ** The loop of the converter *)

Lemma loopBody_results st d :
  results (sarifRunBuilder (loopBody st d)) =
  results (sarifRunBuilder st) ++ [resultOf d].
Proof.
  unfold loopBody. destruct (ruleIndexMap st !! ruleIdOf d); reflexivity.
Qed.

Lemma loop_results ds : ∀ st,
  results (sarifRunBuilder (foldl loopBody st ds)) =
  results (sarifRunBuilder st) ++ (resultOf <$> ds).
Proof.
  induction ds as [|d ds IH]; intros st; simpl.
  - by rewrite app_nil_r.
  - rewrite IH, loopBody_results, <- app_assoc. reflexivity.
Qed.

Lemma registryInv_fresh st id :
  registryInv st →
  ruleIndexMap st !! id = None ↔ id ∉ rule_id <$> rules (driver (sarifRunBuilder st)).
Proof.
  intros [_ Hm]. split.
  - intros Hnone Hin. apply list_elem_of_fmap in Hin as (r & -> & Hr).
    apply list_elem_of_lookup in Hr as [k Hk].
    assert (ruleIndexMap st !! rule_id r = Some k) as Hs by (apply Hm; eauto).
    congruence.
  - intros Hnot. destruct (ruleIndexMap st !! id) as [k|] eqn:E; [|done].
    apply Hm in E as (r & Hk & <-). exfalso. apply Hnot.
    apply list_elem_of_fmap. exists r. split; [done|].
    apply list_elem_of_lookup. eauto.
Qed.

Lemma loopBody_inv st d : registryInv st → registryInv (loopBody st d).
Proof.
  intros Hinv. pose proof Hinv as [Hsz Hm]. unfold loopBody.
  destruct (ruleIndexMap st !! ruleIdOf d) as [k0|] eqn:E; [exact Hinv|].
  unfold registryInv; simpl. split.
  - rewrite map_size_insert_None by done. rewrite length_app; simpl. lia.
  - intros id k. rewrite lookup_insert. destruct (decide (ruleIdOf d = id)) as [<-|Hne].
    + split.
      * intros [= <-]. exists (ruleOf d). split.
        -- rewrite Hsz. rewrite lookup_app_r by lia.
           by rewrite Nat.sub_diag.
        -- unfold ruleOf. destruct (whenTruthy (d_help d)); reflexivity.
      * intros (r & Hk & Hid). f_equal.
        destruct (decide (k < length (rules (driver (sarifRunBuilder st))))) as [Hlt|Hge].
        -- rewrite lookup_app_l in Hk by done.
           assert (ruleIndexMap st !! ruleIdOf d = Some k) by (apply Hm; eauto).
           congruence.
        -- apply lookup_lt_Some in Hk. rewrite length_app in Hk; simpl in Hk. lia.
    + rewrite Hm. split.
      * intros (r & Hk & Hid). exists r. split; [|done].
        by apply lookup_app_l_Some.
      * intros (r & Hk & Hid). exists r. split; [|done].
        apply lookup_app_Some in Hk as [Hk|[Hge Hk]]; [done|].
        apply list_lookup_singleton_Some in Hk as [_ <-].
        exfalso. apply Hne. rewrite <- Hid. unfold ruleOf.
        destruct (whenTruthy (d_help d)); reflexivity.
Qed.

Lemma loop_inv ds : ∀ st, registryInv st → registryInv (foldl loopBody st ds).
Proof.
  induction ds as [|d ds IH]; intros st Hinv; simpl; [done|].
  apply IH, loopBody_inv, Hinv.
Qed.

Lemma ruleOf_id d : rule_id (ruleOf d) = ruleIdOf d.
Proof. unfold ruleOf. destruct (whenTruthy (d_help d)); reflexivity. Qed.

Lemma loop_rules ds : ∀ st,
  registryInv st →
  rules (driver (sarifRunBuilder (foldl loopBody st ds))) =
  rules (driver (sarifRunBuilder st)) ++
  (ruleOf <$> firstSeen (rule_id <$> rules (driver (sarifRunBuilder st))) ds).
Proof.
  induction ds as [|d ds IH]; intros st Hinv; simpl.
  - by rewrite app_nil_r.
  - rewrite IH by (by apply loopBody_inv).
    pose proof (registryInv_fresh st (ruleIdOf d) Hinv) as Hfresh.
    unfold loopBody.
    destruct (ruleIndexMap st !! ruleIdOf d) as [k0|] eqn:E; simpl.
    + destruct (decide (ruleIdOf d ∈ rule_id <$> rules (driver (sarifRunBuilder st))))
        as [Hin|Hnot]; [reflexivity|].
      apply Hfresh in Hnot. congruence.
    + destruct (decide (ruleIdOf d ∈ rule_id <$> rules (driver (sarifRunBuilder st))))
        as [Hin|Hnot].
      * exfalso. by apply Hfresh.
      * rewrite fmap_app; simpl. rewrite ruleOf_id, <- app_assoc. reflexivity.
Qed.

Lemma loop_registry ds : ∀ st,
  (∀ id, is_Some (ruleIndexMap st !! id) →
         is_Some (ruleIndexMap (foldl loopBody st ds) !! id)) ∧
  (∀ d, d ∈ ds → is_Some (ruleIndexMap (foldl loopBody st ds) !! ruleIdOf d)).
Proof.
  induction ds as [|d ds IH]; intros st; simpl.
  - split; [done|]. intros d Hd. by apply not_elem_of_nil in Hd.
  - destruct (IH (loopBody st d)) as [Hkeep Hnew].
    assert (∀ id, is_Some (ruleIndexMap st !! id) →
                  is_Some (ruleIndexMap (loopBody st d) !! id)) as Hstep.
    { intros id Hid. unfold loopBody.
      destruct (ruleIndexMap st !! ruleIdOf d) eqn:E; simpl; [done|].
      rewrite lookup_insert. by destruct (decide (ruleIdOf d = id)). }
    split.
    + intros id Hid. by apply Hkeep, Hstep.
    + intros d' Hd'. apply elem_of_cons in Hd' as [->|Hd']; [|by apply Hnew].
      apply Hkeep. unfold loopBody.
      destruct (ruleIndexMap st !! ruleIdOf d) eqn:E; simpl; [by rewrite E|].
      by rewrite lookup_insert_eq.
Qed.

(** The index the finished log derives from the rules list agrees with any
    map that is in step with that list. *)
Lemma rulesIndexes_lookup rs : ∀ i m id,
  NoDup (rule_id <$> rs) →
  rulesIndexes i rs m !! id =
  match list_find (fun r => rule_id r = id) rs with
  | Some (j, _) => Some (i + j)
  | None => m !! id
  end.
Proof.
  induction rs as [|r rs IH]; intros i m id Hnd; simpl; [done|].
  apply NoDup_cons in Hnd as [Hnotin Hnd].
  rewrite IH by done.
  destruct (decide (rule_id r = id)) as [<-|Hne]; simpl.
  - destruct (list_find (λ r0, rule_id r0 = rule_id r) rs) as [[j r']|] eqn:E.
    + apply list_find_Some in E as (Hj & Heq & _). exfalso. apply Hnotin.
      rewrite <- Heq. apply list_elem_of_fmap. exists r'. split; [done|].
      apply list_elem_of_lookup. eauto.
    + simpl. rewrite lookup_insert_eq. f_equal. lia.
  - destruct (list_find (λ r0, rule_id r0 = id) rs) as [[j r']|] eqn:E; simpl.
    + f_equal. lia.
    + by rewrite lookup_insert_ne.
Qed.

Lemma registryInv_NoDup st :
  registryInv st → NoDup (rule_id <$> rules (driver (sarifRunBuilder st))).
Proof.
  intros [_ Hm]. apply NoDup_alt. intros i j id Hi Hj.
  apply list_lookup_fmap_Some in Hi as (ri & -> & Hri).
  apply list_lookup_fmap_Some in Hj as (rj & Heq & Hrj).
  assert (ruleIndexMap st !! rule_id ri = Some i) as H1 by (apply Hm; eauto).
  assert (ruleIndexMap st !! rule_id ri = Some j) as H2 by (apply Hm; eauto).
  congruence.
Qed.

Lemma rulesIndexes_registry st :
  registryInv st →
  rulesIndexes 0 (rules (driver (sarifRunBuilder st))) ∅ = ruleIndexMap st.
Proof.
  intros Hinv. apply map_eq. intros id.
  rewrite rulesIndexes_lookup by (by apply registryInv_NoDup).
  destruct Hinv as [_ Hm].
  destruct (list_find _ _) as [[j r]|] eqn:E.
  - apply list_find_Some in E as (Hj & Hid & _). simpl.
    symmetry. apply Hm. eauto.
  - rewrite lookup_empty. symmetry.
    destruct (ruleIndexMap st !! id) as [k|] eqn:Ek; [|done].
    apply Hm in Ek as (r & Hk & Hid).
    apply list_find_None in E. exfalso.
    eapply Forall_lookup_1 in E; [|exact Hk]. by apply E.
Qed.

Lemma initial_inv tv :
  registryInv {| ruleIndexMap := ∅; sarifRunBuilder := initialRun tv |}.
Proof.
  split; simpl.
  - unfold initialRun. destruct (whenTruthy tv); reflexivity.
  - intros id k. rewrite lookup_empty. split; [done|].
    intros (r & Hk & _). unfold initialRun in Hk.
    destruct (whenTruthy tv); simpl in Hk; done.
Qed.

Lemma initial_rules tv : rules (driver (initialRun tv)) = [].
Proof. unfold initialRun. destruct (whenTruthy tv); reflexivity. Qed.

Lemma initial_results tv : results (initialRun tv) = [].
Proof. unfold initialRun. destruct (whenTruthy tv); reflexivity. Qed.

Lemma convertLoop_inv report tv : registryInv (convertLoop report tv).
Proof. apply loop_inv, initial_inv. Qed.

Lemma convertLoop_results report tv :
  results (sarifRunBuilder (convertLoop report tv)) = resultOf <$> diagnostics report.
Proof.
  unfold convertLoop. rewrite loop_results. cbn [sarifRunBuilder].
  by rewrite initial_results.
Qed.

(** The shape of the log: one run, the loop's driver, and the loop's results
    indexed by the loop's own registry. *)
Lemma convertToSarif_runs report tv :
  runs (convertToSarif report tv) =
  [ {| driver := driver (sarifRunBuilder (convertLoop report tv));
       columnKind := columnKind (sarifRunBuilder (convertLoop report tv));
       results := setRuleIndex (ruleIndexMap (convertLoop report tv)) <$>
                    (resultOf <$> diagnostics report) |} ].
Proof.
  unfold convertToSarif, buildSarifOutput; simpl.
  rewrite rulesIndexes_registry by apply convertLoop_inv.
  by rewrite convertLoop_results.
Qed.

Lemma convertLoop_rules report tv :
  rules (driver (sarifRunBuilder (convertLoop report tv))) =
  ruleOf <$> firstSeen [] (diagnostics report).
Proof.
  unfold convertLoop. rewrite loop_rules by apply initial_inv.
  cbn [sarifRunBuilder]. by rewrite initial_rules.
Qed.

(** ** First-seen deduplication *)

Lemma firstSeen_first ds : ∀ seen k d,
  firstSeen seen ds !! k = Some d →
  (ruleIdOf d ∉ seen) ∧
  ∃ i, ds !! i = Some d ∧
       ∀ j d', j < i → ds !! j = Some d' → ruleIdOf d' ≠ ruleIdOf d.
Proof.
  induction ds as [|d0 ds IH]; intros seen k d Hk; simpl in Hk; [done|].
  destruct (decide (ruleIdOf d0 ∈ seen)) as [Hin|Hnot].
  - destruct (IH _ _ _ Hk) as (Hd & i & Hi & Hfirst).
    split; [done|]. exists (S i). split; [done|].
    intros [|j] d' Hj Hd'; simpl in Hd'.
    + injection Hd' as <-. intros Heq. apply Hd. by rewrite <- Heq.
    + apply (Hfirst j); [lia|done].
  - destruct k as [|k]; simpl in Hk.
    + injection Hk as <-. split; [done|]. exists 0. split; [done|].
      intros j d' Hj. lia.
    + destruct (IH _ _ _ Hk) as (Hd & i & Hi & Hfirst).
      rewrite elem_of_app, list_elem_of_singleton in Hd.
      split; [tauto|]. exists (S i). split; [done|].
      intros [|j] d' Hj Hd'; simpl in Hd'.
      * injection Hd' as <-. intros Heq. apply Hd. by right.
      * apply (Hfirst j); [lia|done].
Qed.

Lemma firstSeen_order ds : ∀ seen k1 k2 d1 d2,
  k1 < k2 →
  firstSeen seen ds !! k1 = Some d1 →
  firstSeen seen ds !! k2 = Some d2 →
  ∃ i1, ds !! i1 = Some d1 ∧
        ∀ j d', j ≤ i1 → ds !! j = Some d' → ruleIdOf d' ≠ ruleIdOf d2.
Proof.
  induction ds as [|d0 ds IH]; intros seen k1 k2 d1 d2 Hlt H1 H2;
    simpl in H1, H2; [done|].
  destruct (decide (ruleIdOf d0 ∈ seen)) as [Hin|Hnot].
  - destruct (IH _ _ _ _ _ Hlt H1 H2) as (i1 & Hi1 & Hbefore).
    apply firstSeen_first in H2 as [Hd2 _].
    exists (S i1). split; [done|].
    intros [|j] d' Hj Hd'; simpl in Hd'.
    + injection Hd' as <-. intros Heq. apply Hd2. by rewrite <- Heq.
    + apply (Hbefore j); [lia|done].
  - destruct k2 as [|k2]; [lia|]. simpl in H2.
    pose proof (firstSeen_first _ _ _ _ H2) as [Hd2 _].
    rewrite elem_of_app, list_elem_of_singleton in Hd2.
    destruct k1 as [|k1]; simpl in H1.
    + injection H1 as <-. exists 0. split; [done|].
      intros [|j] d' Hj Hd'; [|lia]. simpl in Hd'. injection Hd' as <-.
      intros Heq. apply Hd2. by right.
    + destruct (IH _ _ _ _ _ (proj2 (Nat.succ_lt_mono k1 k2) Hlt) H1 H2)
        as (i1 & Hi1 & Hbefore).
      exists (S i1). split; [done|].
      intros [|j] d' Hj Hd'; simpl in Hd'.
      * injection Hd' as <-. intros Heq. apply Hd2. by right.
      * apply (Hbefore j); [lia|done].
Qed.

Lemma firstSeen_cover ds : ∀ seen d,
  d ∈ ds → ruleIdOf d ∈ seen ∨ ruleIdOf d ∈ ruleIdOf <$> firstSeen seen ds.
Proof.
  induction ds as [|d0 ds IH]; intros seen d Hd.
  - by apply not_elem_of_nil in Hd.
  - simpl. apply elem_of_cons in Hd as [->|Hd].
    + destruct (decide (ruleIdOf d0 ∈ seen)); [by left|].
      right. rewrite fmap_cons. apply list_elem_of_here.
    + destruct (decide (ruleIdOf d0 ∈ seen)); [by apply IH|].
      destruct (IH (seen ++ [ruleIdOf d0]) d Hd) as [Hs|Hf].
      * apply elem_of_app in Hs as [Hs|Hs]; [by left|].
        apply list_elem_of_singleton in Hs. right.
        rewrite fmap_cons, Hs. apply list_elem_of_here.
      * right. rewrite fmap_cons. by apply list_elem_of_further.
Qed.

Lemma firstSeen_subset ds : ∀ seen d, d ∈ firstSeen seen ds → d ∈ ds.
Proof.
  intros seen d Hd. apply list_elem_of_lookup in Hd as [k Hk].
  apply firstSeen_first in Hk as (_ & i & Hi & _).
  apply list_elem_of_lookup. eauto.
Qed.

(** ** What one result carries *)

Lemma resultOf_ruleId d : ruleId (resultOf d) = Some (ruleIdOf d).
Proof. unfold resultOf. destruct (d_labels d) as [|? [|? ?]]; reflexivity. Qed.

Lemma resultOf_level d :
  level (resultOf d) = Some (mapSeverityToLevel (d_severity d)).
Proof. unfold resultOf. destruct (d_labels d) as [|? [|? ?]]; reflexivity. Qed.

Lemma ruleIdOf_truthy d : truthy (ruleIdOf d) = true.
Proof. unfold ruleIdOf. destruct (d_code d); reflexivity. Qed.

Lemma ruleIdOf_spec d :
  ruleIdOf d = if decide (d_code d = []) then js "UnknownRule" else d_code d.
Proof. unfold ruleIdOf. destruct (d_code d); reflexivity. Qed.

Lemma setRuleIndex_registered m d k :
  m !! ruleIdOf d = Some k →
  setRuleIndex m (resultOf d) = withRuleIndex k (resultOf d).
Proof.
  intros Hk. unfold setRuleIndex, withRuleIndex.
  by rewrite resultOf_ruleId, ruleIdOf_truthy, Hk.
Qed.

Lemma convertLoop_registered report tv d :
  d ∈ diagnostics report →
  ∃ k desc,
    ruleIndexMap (convertLoop report tv) !! ruleIdOf d = Some k ∧
    rules (driver (sarifRunBuilder (convertLoop report tv))) !! k = Some desc ∧
    rule_id desc = ruleIdOf d.
Proof.
  intros Hd.
  destruct (loop_registry (diagnostics report)
              {| ruleIndexMap := ∅; sarifRunBuilder := initialRun tv |})
    as [_ Hreg].
  destruct (Hreg d Hd) as [k Hk]. fold (convertLoop report tv) in Hk.
  destruct (convertLoop_inv report tv) as [_ Hm].
  pose proof (proj1 (Hm _ _) Hk) as (desc & Hdesc & Hid).
  eauto.
Qed.

(** Every result of the log is the result of its diagnostic, with the index
    of its rule. *)
Lemma convertToSarif_result_at report tv i d :
  diagnostics report !! i = Some d →
  ∃ run k desc,
    runs (convertToSarif report tv) = [run] ∧
    results run !! i = Some (withRuleIndex k (resultOf d)) ∧
    rules (driver run) !! k = Some desc ∧
    rule_id desc = ruleIdOf d ∧
    ruleIndexMap (convertLoop report tv) !! ruleIdOf d = Some k.
Proof.
  intros Hi.
  destruct (convertLoop_registered report tv d) as (k & desc & Hk & Hdesc & Hid).
  { apply list_elem_of_lookup. eauto. }
  eexists _, k, desc. split; [apply convertToSarif_runs|].
  cbn [results driver]. split; [|done].
  rewrite !list_lookup_fmap, Hi. simpl.
  by rewrite (setRuleIndex_registered _ _ k).
Qed.

Lemma resultOf_locations d :
  locations (resultOf d) =
  [ {| loc_id := None;
       physicalLocation :=
         Some {| artifactLocation := Some {| uri := pathToUri (d_filename d) |};
                 region := match d_labels d with
                           | [] => None
                           | first :: _ => Some (buildRegion (l_span first))
                           end |};
       loc_message := None |} ].
Proof. unfold resultOf. destruct (d_labels d) as [|? [|? ?]]; reflexivity. Qed.

Lemma resultOf_relatedLocations d :
  relatedLocations (resultOf d) =
  match d_labels d with
  | _ :: ((_ :: _) as rest) =>
      Some (imap (fun idx lbl => buildRelatedLocation lbl (d_filename d) (idx + 1)) rest)
  | _ => None
  end.
Proof. unfold resultOf. destruct (d_labels d) as [|? [|? ?]]; reflexivity. Qed.

Lemma loopBody_ext st d1 d2 :
  d_message d1 = d_message d2 → d_code d1 = d_code d2 →
  d_severity d1 = d_severity d2 → d_url d1 = d_url d2 →
  d_help d1 = d_help d2 → d_filename d1 = d_filename d2 →
  d_labels d1 = d_labels d2 →
  loopBody st d1 = loopBody st d2.
Proof.
  destruct d1, d2; simpl; intros; subst; reflexivity.
Qed.

(** ** The claims about the converter *)

(** C1.  For every report and every diagnostic in it, the result built for the
    diagnostic has as ruleId the diagnostic's code, or UnknownRule when the
    code is empty, and as ruleIndex the zero-based position of that rule's
    descriptor in tool.driver.rules, which is the index the registry of the
    converter assigned to the rule when it was registered. *)
Theorem convertToSarif_ruleId_ruleIndex report tv i d :
  diagnostics report !! i = Some d →
  ∃ run r k desc,
    runs (convertToSarif report tv) = [run] ∧
    results run !! i = Some r ∧
    ruleId r = Some (if decide (d_code d = []) then js "UnknownRule" else d_code d) ∧
    ruleIndex r = Some k ∧
    rules (driver run) !! k = Some desc ∧
    rule_id desc = (if decide (d_code d = []) then js "UnknownRule" else d_code d) ∧
    ruleIndexMap (convertLoop report tv) !! rule_id desc = Some k.
Proof.
  intros Hi.
  destruct (convertToSarif_result_at report tv i d Hi)
    as (run & k & desc & Hrun & Hr & Hdesc & Hid & Hk).
  exists run, (withRuleIndex k (resultOf d)), k, desc.
  rewrite <- ruleIdOf_spec, Hid.
  repeat split; try done.
  cbn [ruleId withRuleIndex]. apply resultOf_ruleId.
Qed.

Lemma convertToSarif_ruleId_ruleIndex_witness :
  ∃ run r k desc,
    runs (convertToSarif exReport None) = [run] ∧
    results run !! 2 = Some r ∧
    ruleId r = Some (js "r1") ∧
    ruleIndex r = Some k ∧
    rules (driver run) !! k = Some desc ∧
    rule_id desc = js "r1" ∧
    ruleIndexMap (convertLoop exReport None) !! rule_id desc = Some k.
Proof.
  exact (convertToSarif_ruleId_ruleIndex exReport None 2
           (exDiagnostic (js "r1") None None []) eq_refl).
Defined.

Lemma resultOf_message d :
  message (resultOf d) =
  {| text := Some (match d_help d with
                   | Some h => if decide (h = []) then d_message d
                               else d_message d ++ [10%N] ++ h
                   | None => d_message d
                   end) |}.
Proof.
  unfold resultOf, whenTruthy.
  destruct (d_labels d) as [|? [|? ?]], (d_help d) as [[|c h]|]; reflexivity.
Qed.

Lemma buildRelatedLocation_fields lbl filename id :
  buildRelatedLocation lbl filename id =
  {| loc_id := Some id;
     physicalLocation :=
       Some {| artifactLocation := Some {| uri := pathToUri filename |};
               region := Some (buildRegion (l_span lbl)) |};
     loc_message := match l_label lbl with
                    | Some t => if decide (t = []) then None
                                else Some {| text := Some t |}
                    | None => None
                    end |}.
Proof.
  unfold buildRelatedLocation, whenTruthy.
  destruct (l_label lbl) as [[|c t]|]; reflexivity.
Qed.

(** C9.  For every report with N diagnostics the log has exactly one run,
    whose results array has length N, and result i is the one of diagnostic
    i, field by field: its level is error or warning after the severity; its
    message is the diagnostic's message, followed by a line feed and the help
    when there is a help that is not empty; its ruleId is the diagnostic's
    code, or UnknownRule for an empty code, and its ruleIndex is the place of
    the rule of that id in the driver's rules; its one location is the file's
    URI with the region of the first label, if any; its related locations
    are those of the labels after the first, when there are two labels or
    more.  So the input order is kept and nothing is merged or dropped. *)
Theorem convertToSarif_results report tv :
  ∃ run,
    runs (convertToSarif report tv) = [run] ∧
    length (results run) = length (diagnostics report) ∧
    ∀ i d, diagnostics report !! i = Some d →
      ∃ k desc,
        rules (driver run) !! k = Some desc ∧
        rule_id desc = (if decide (d_code d = []) then js "UnknownRule"
                        else d_code d) ∧
        results run !! i =
        Some {| level := Some (match d_severity d with
                               | SevError => js "error"
                               | SevWarning => js "warning"
                               end);
                message :=
                  {| text := Some (match d_help d with
                                   | Some h => if decide (h = []) then d_message d
                                               else d_message d ++ [10%N] ++ h
                                   | None => d_message d
                                   end) |};
                ruleId := Some (if decide (d_code d = []) then js "UnknownRule"
                                else d_code d);
                ruleIndex := Some k;
                locations :=
                  [ {| loc_id := None;
                       physicalLocation :=
                         Some {| artifactLocation :=
                                   Some {| uri := pathToUri (d_filename d) |};
                                 region := match d_labels d with
                                           | [] => None
                                           | first :: _ =>
                                               Some (buildRegion (l_span first))
                                           end |};
                       loc_message := None |} ];
                relatedLocations :=
                  match d_labels d with
                  | _ :: ((_ :: _) as rest) =>
                      Some (imap
                              (fun idx lbl =>
                                 {| loc_id := Some (idx + 1);
                                    physicalLocation :=
                                      Some {| artifactLocation :=
                                                Some {| uri := pathToUri (d_filename d) |};
                                              region :=
                                                Some (buildRegion (l_span lbl)) |};
                                    loc_message :=
                                      match l_label lbl with
                                      | Some t => if decide (t = []) then None
                                                  else Some {| text := Some t |}
                                      | None => None
                                      end |})
                              rest)
                  | _ => None
                  end |}.
Proof.
  eexists. split; [apply convertToSarif_runs|]. cbn [results]. split.
  - by rewrite !length_fmap.
  - intros i d Hi.
    destruct (convertToSarif_result_at report tv i d Hi)
      as (run & k & desc & Hrun & Hr & Hdesc & Hid & _).
    rewrite convertToSarif_runs in Hrun. injection Hrun as <-.
    exists k, desc. split; [exact Hdesc|].
    split; [by rewrite Hid, ruleIdOf_spec|].
    cbn [results] in Hr. rewrite Hr. f_equal. unfold withRuleIndex.
    rewrite resultOf_level, resultOf_message, resultOf_ruleId, ruleIdOf_spec,
      resultOf_locations, resultOf_relatedLocations.
    f_equal.
    destruct (d_labels d) as [|l0 [|l1 rest]]; try reflexivity.
    f_equal. apply imap_ext. intros j lbl _.
    apply buildRelatedLocation_fields.
Qed.

(** C7.  The region built from a span always has startLine equal to the
    span's line; startColumn is the span's column and is there exactly when
    column > 0; endColumn is column + length and is there exactly when
    length > 0.  The primary location of a result carries the artifact URI of
    the file, with the region of the first label, and with no region at all
    when the diagnostic has no labels. *)
Theorem convertToSarif_region :
  (∀ span,
     startLine (buildRegion span) = sp_line span ∧
     startColumn (buildRegion span) =
       (if (0 <? sp_column span)%float then Some (sp_column span) else None) ∧
     endColumn (buildRegion span) =
       (if (0 <? sp_length span)%float
        then Some (sp_column span + sp_length span)%float else None)) ∧
  (∀ report tv i d,
     diagnostics report !! i = Some d →
     ∃ run r,
       runs (convertToSarif report tv) = [run] ∧
       results run !! i = Some r ∧
       locations r =
       [ {| loc_id := None;
            physicalLocation :=
              Some {| artifactLocation := Some {| uri := pathToUri (d_filename d) |};
                      region := match d_labels d with
                                | [] => None
                                | first :: _ => Some (buildRegion (l_span first))
                                end |};
            loc_message := None |} ]).
Proof.
  split; [done|]. intros report tv i d Hi.
  destruct (convertToSarif_result_at report tv i d Hi)
    as (run & k & desc & Hrun & Hr & _).
  exists run, (withRuleIndex k (resultOf d)). repeat split; try done.
  cbn [locations withRuleIndex]. apply resultOf_locations.
Qed.

Lemma convertToSarif_region_witness :
  ∃ run r,
    runs (convertToSarif exReport None) = [run] ∧
    results run !! 2 = Some r ∧
    locations r =
    [ {| loc_id := None;
         physicalLocation :=
           Some {| artifactLocation := Some {| uri := js "src/a.ts" |};
                   region := None |};
         loc_message := None |} ].
Proof.
  exact (proj2 convertToSarif_region exReport None 2
           (exDiagnostic (js "r1") None None []) eq_refl).
Defined.

Lemma imap_related_lookup filename (rest : list OxlintLabel) j lbl :
  rest !! j = Some lbl →
  imap (fun idx l => buildRelatedLocation l filename (idx + 1)) rest !! j =
  Some (buildRelatedLocation lbl filename (j + 1)).
Proof. intros Hj. by rewrite list_lookup_imap, Hj. Qed.

(** C8, as the code has it.  For a diagnostic with K labels the result has a
    relatedLocations field exactly when K >= 2; it then has K-1 entries, the
    j-th built from label j+1, with id j+1, the artifact URI of the file (the
    one of the primary location) and the region of that label's span.  An
    entry has a message, whose text is the label's text, exactly when the
    label has a text that is not empty. *)
Theorem convertToSarif_relatedLocations report tv i d :
  diagnostics report !! i = Some d →
  ∃ run r loc p,
    runs (convertToSarif report tv) = [run] ∧
    results run !! i = Some r ∧
    locations r = [loc] ∧ physicalLocation loc = Some p ∧
    artifactLocation p = Some {| uri := pathToUri (d_filename d) |} ∧
    (is_Some (relatedLocations r) ↔ 2 ≤ length (d_labels d)) ∧
    ∀ rl, relatedLocations r = Some rl →
      length rl = length (d_labels d) - 1 ∧
      ∀ j lbl, d_labels d !! S j = Some lbl →
        rl !! j =
        Some {| loc_id := Some (j + 1);
                physicalLocation :=
                  Some {| artifactLocation := Some {| uri := pathToUri (d_filename d) |};
                          region := Some (buildRegion (l_span lbl)) |};
                loc_message :=
                  match l_label lbl with
                  | Some t => if decide (t = []) then None
                              else Some {| text := Some t |}
                  | None => None
                  end |}.
Proof.
  intros Hi.
  destruct (convertToSarif_result_at report tv i d Hi)
    as (run & k & desc & Hrun & Hr & _).
  eexists run, (withRuleIndex k (resultOf d)), _, _.
  split; [done|]. split; [done|].
  cbn [locations relatedLocations withRuleIndex].
  rewrite resultOf_locations, resultOf_relatedLocations.
  split; [reflexivity|]. split; [reflexivity|]. split; [reflexivity|].
  destruct (d_labels d) as [|l0 [|l1 rest]] eqn:El; lazy beta iota; cbn [length].
  - split; [split; [intros [? ?]; done | lia] | done].
  - split; [split; [intros [? ?]; done | lia] | done].
  - split; [split; [lia | eauto] |].
    intros rl Hrl. apply (inj Some) in Hrl. subst rl. split.
    + rewrite length_imap. cbn [length]. lia.
    + intros j lbl Hj.
      rewrite (imap_related_lookup _ (l1 :: rest) j lbl Hj).
      unfold buildRelatedLocation, whenTruthy.
      destruct (l_label lbl) as [[|c t]|]; reflexivity.
Qed.

Lemma convertToSarif_relatedLocations_witness :
  ∃ run r loc p,
    runs (convertToSarif exReport None) = [run] ∧
    results run !! 1 = Some r ∧
    locations r = [loc] ∧ physicalLocation loc = Some p ∧
    artifactLocation p = Some {| uri := js "src/a.ts" |} ∧
    (is_Some (relatedLocations r) ↔ 2 ≤ 2) ∧
    ∀ rl, relatedLocations r = Some rl →
      length rl = 1 ∧
      ∀ j lbl,
        [ {| l_label := Some (js "first"); l_span := exSpan 5 1 0 |};
          {| l_label := Some (js "second"); l_span := exSpan 0 7 3 |} ] !! S j = Some lbl →
        rl !! j =
        Some {| loc_id := Some (j + 1);
                physicalLocation :=
                  Some {| artifactLocation := Some {| uri := js "src/a.ts" |};
                          region := Some (buildRegion (l_span lbl)) |};
                loc_message :=
                  match l_label lbl with
                  | Some t => if decide (t = []) then None
                              else Some {| text := Some t |}
                  | None => None
                  end |}.
Proof.
  exact (convertToSarif_relatedLocations exReport None 1 _ eq_refl).
Defined.

(** C8 as stated fails: a related location built from a label whose text is
    present and empty has no message, where the claim gives it a message with
    that text. *)
Lemma relatedLocation_message_counterexample :
  ¬ (∀ report tv run r d lbl rl loc t,
       runs (convertToSarif report tv) = [run] →
       results run !! 0 = Some r →
       diagnostics report !! 0 = Some d →
       d_labels d !! 1 = Some lbl →
       relatedLocations r = Some rl →
       rl !! 0 = Some loc →
       l_label lbl = Some t →
       loc_message loc = Some {| text := Some t |}).
Proof.
  intros Hclaim.
  specialize (Hclaim exEmptyLabelReport None _ _ _ _ _ _ []
                eq_refl eq_refl eq_refl eq_refl eq_refl eq_refl eq_refl).
  discriminate Hclaim.
Qed.

(** C3, as the code has it.  The rules list holds exactly one descriptor per
    distinct rule identifier among the diagnostics (the code, or UnknownRule
    when the code is empty), in first-seen order.  A descriptor's id and short
    description are the identifier; its helpUri is the url of the first
    diagnostic with that identifier when that url is present and not empty,
    and its help text is that diagnostic's help when present and not empty.
    Later diagnostics with the same identifier add no descriptor. *)
Theorem convertToSarif_rules report tv :
  ∃ run,
    runs (convertToSarif report tv) = [run] ∧
    NoDup (rule_id <$> rules (driver run)) ∧
    (∀ id, id ∈ rule_id <$> rules (driver run) ↔
           id ∈ ruleIdOf <$> diagnostics report) ∧
    (∀ k r, rules (driver run) !! k = Some r →
       ∃ i d,
         diagnostics report !! i = Some d ∧
         ruleIdOf d = rule_id r ∧
         (∀ j d', j < i → diagnostics report !! j = Some d' →
                  ruleIdOf d' ≠ rule_id r) ∧
         shortDescription r = {| text := Some (rule_id r) |} ∧
         helpUri r = whenTruthy (d_url d) ∧
         help r = match whenTruthy (d_help d) with
                  | Some h => Some {| text := Some h |}
                  | None => None
                  end) ∧
    (∀ k1 k2 r1 r2,
       k1 < k2 →
       rules (driver run) !! k1 = Some r1 →
       rules (driver run) !! k2 = Some r2 →
       ∃ i1 d1,
         diagnostics report !! i1 = Some d1 ∧
         ruleIdOf d1 = rule_id r1 ∧
         ∀ j d', j ≤ i1 → diagnostics report !! j = Some d' →
                 ruleIdOf d' ≠ rule_id r2).
Proof.
  eexists. split; [apply convertToSarif_runs|]. cbn [driver].
  split; [apply registryInv_NoDup, convertLoop_inv|].
  rewrite convertLoop_rules. split; [|split].
  - intros id. rewrite <- list_fmap_compose. split.
    + intros Hin. apply list_elem_of_fmap in Hin as (d & -> & Hd).
      simpl. rewrite ruleOf_id. apply list_elem_of_fmap. exists d.
      split; [done|]. by eapply firstSeen_subset.
    + intros Hin. apply list_elem_of_fmap in Hin as (d & -> & Hd).
      destruct (firstSeen_cover (diagnostics report) [] d Hd) as [Hnil|Hin].
      * by apply not_elem_of_nil in Hnil.
      * apply list_elem_of_fmap in Hin as (d0 & Heq & Hd0).
        apply list_elem_of_fmap. exists d0. split; [|done].
        simpl. by rewrite ruleOf_id.
  - intros k r Hk. apply list_lookup_fmap_Some in Hk as (d & -> & Hk).
    apply firstSeen_first in Hk as (_ & i & Hi & Hfirst).
    exists i, d. rewrite ruleOf_id.
    repeat split; try done; unfold ruleOf;
      destruct (whenTruthy (d_help d)); reflexivity.
  - intros k1 k2 r1 r2 Hlt H1 H2.
    apply list_lookup_fmap_Some in H1 as (d1 & -> & H1).
    apply list_lookup_fmap_Some in H2 as (d2 & -> & H2).
    destruct (firstSeen_order _ _ _ _ _ _ Hlt H1 H2) as (i1 & Hi1 & Hbefore).
    exists i1, d1. rewrite !ruleOf_id. done.
Qed.

(** C3 as stated fails: the descriptor of a rule whose first diagnostic has a
    url that is present and empty has no helpUri, where the claim gives it
    that url. *)
Lemma rule_helpUri_counterexample :
  ¬ (∀ report tv run r d u,
       runs (convertToSarif report tv) = [run] →
       rules (driver run) !! 0 = Some r →
       diagnostics report !! 0 = Some d →
       d_url d = Some u →
       helpUri r = Some u).
Proof.
  intros Hclaim.
  specialize (Hclaim exEmptyUrlReport None _ _ _ []
                eq_refl eq_refl eq_refl eq_refl).
  discriminate Hclaim.
Qed.

(** C10.  The log does not depend on the causes and related fields of the
    diagnostics: two reports that agree on everything else convert to the
    same log. *)
Theorem convertToSarif_ignores_causes_related r1 r2 tv :
  sameExceptCausesRelated r1 r2 →
  convertToSarif r1 tv = convertToSarif r2 tv.
Proof.
  intros (_ & _ & _ & _ & Hds).
  unfold convertToSarif, convertLoop. f_equal. f_equal.
  generalize {| ruleIndexMap := ∅; sarifRunBuilder := initialRun tv |}.
  induction Hds as [|d1 d2 ds1 ds2 Hd _ IH]; intros st; simpl; [done|].
  destruct Hd as (? & ? & ? & ? & ? & ? & ?).
  rewrite (loopBody_ext st d1 d2) by done. apply IH.
Qed.

Lemma convertToSarif_ignores_causes_related_witness :
  sameExceptCausesRelated exReport exReport' ∧
  convertToSarif exReport None = convertToSarif exReport' None.
Proof.
  assert (sameExceptCausesRelated exReport exReport') as Hsame.
  { repeat split. repeat constructor. }
  split; [exact Hsame|].
  exact (convertToSarif_ignores_causes_related exReport exReport' None Hsame).
Defined.

(** ** Completions *)

Lemma bind_Return {E A B} (c : completion E A) (k : A → completion E B) b :
  bind c k = Return b → ∃ a, c = Return a ∧ k a = Return b.
Proof. destruct c as [a|e]; simpl; [eauto | discriminate]. Qed.

Lemma bind_Throw {E A B} (c : completion E A) (k : A → completion E B) e :
  c = Throw e → bind c k = Throw e.
Proof. intros ->. reflexivity. Qed.

Lemma mapM_Return {E A B} (f : A → completion E B) xs : ∀ ys,
  mapM f xs = Return ys → Forall2 (fun x y => f x = Return y) xs ys.
Proof.
  induction xs as [|x xs IH]; intros ys Hm; simpl in Hm.
  - injection Hm as <-. constructor.
  - apply bind_Return in Hm as (y & Hy & Hm).
    apply bind_Return in Hm as (ys' & Hys & Hm).
    injection Hm as <-. constructor; [done|]. by apply IH.
Qed.

Lemma mapM_total {E A B} (f : A → completion E B) xs :
  Forall (fun x => ∃ y, f x = Return y) xs → ∃ ys, mapM f xs = Return ys.
Proof.
  induction 1 as [|x xs [y Hy] _ [ys Hys]]; simpl; [eauto|].
  rewrite Hy; simpl. rewrite Hys; simpl. eauto.
Qed.

(** ** The parser: severity *)

Section ParserFacts.
Context `{H : Host}.


Lemma normalizeOxlintSeverity_spec s :
  normalizeOxlintSeverity s =
  if decide (toLowerCase s = js "error") then SevError else SevWarning.
Proof. unfold normalizeOxlintSeverity. repeat case_decide; reflexivity. Qed.


Lemma parseOxlintJson_Return input report :
  parseOxlintJson input = Return report →
  ∃ parsed,
    trim input ≠ [] ∧
    JSON_parse input = inr parsed ∧
    isOxlintReport parsed = true ∧
    Forall2 (fun raw d => parseDiagnostic raw = Return d)
            (filter (fun d => isOxlintDiagnostic d = true) (rawDiagnostics parsed))
            (diagnostics report).
Proof.
  unfold parseOxlintJson. intros Hp.
  destruct (decide (trim input = [])) as [|Hne]; [discriminate|].
  destruct (JSON_parse input) as [err|parsed]; [discriminate|].
  destruct (isOxlintReport parsed) eqn:Hrep; simpl in Hp; [|discriminate].
  inv_bind @bind_Return Hp. injection Hp as <-. simpl.
  exists parsed. repeat split; try done. by apply mapM_Return.
Qed.

End ParserFacts.




(** ** The parser: labels *)

Section LabelFacts.
Context `{H : Host}.

Lemma numberOr_nullish o dflt x :
  nullish o → numberOr o dflt = Return x → x = dflt.
Proof.
  intros [-> | ->]; unfold numberOr; simpl; intros Hx; by injection Hx.
Qed.

Lemma numberOr_value v dflt x :
  v ≠ JNull → numberOr (Some v) dflt = Return x → ToNumber v = Return x.
Proof. intros Hv. unfold numberOr, coalesce. by destruct v. Qed.

Lemma numberOr_total o dflt :
  nullish o ∨ (∃ x, o = Some (JNum x)) → ∃ y, numberOr o dflt = Return y.
Proof.
  intros [[-> | ->] | [x ->]]; unfold numberOr; simpl; eauto.
Qed.

Lemma parseLabel_unfold l :
  parseLabel l =
  do offset <- numberOr (rawSpanField l (js "offset")) 0%float;
  do length <- numberOr (rawSpanField l (js "length")) 0%float;
  do line <- numberOr (rawSpanField l (js "line")) 1%float;
  do column <- numberOr (rawSpanField l (js "column")) 1%float;
  Return {| l_label := match getProp l (js "label") with
                       | Some (JStr s) => Some s
                       | _ => None
                       end;
            l_span := {| sp_offset := offset; sp_length := length;
                         sp_line := line; sp_column := column |} |}.
Proof. reflexivity. Qed.

End LabelFacts.

(** C4, as the code has it.  In a label the parser returns, each span field
    is read as l.span?.field and set on its own: to its default (offset 0,
    length 0, line 1, column 1) when that read is undefined or null, and to
    the number that Number() makes of the value otherwise, numeric or not
    (true becomes 1).  The text of the label is kept exactly when the raw
    label field is a string.  The parser returns a label whenever every read
    is undefined, null or a number.  What is read depends on the span: when
    it is missing, null, a boolean or a number, every read is undefined and
    the span of the label is the four defaults; when it is a string or an
    array, length is read as the number of its code units or elements, so the
    length of the label is that number and not 0, and the three other fields
    are defaulted; when it is an object, each read is the object's own
    property of that name. *)
Theorem parseLabel_defaults `{H : Host} (l : JSON) :
  (∀ lab, parseLabel l = Return lab →
     (nullish (rawSpanField l (js "offset")) → sp_offset (l_span lab) = 0%float) ∧
     (nullish (rawSpanField l (js "length")) → sp_length (l_span lab) = 0%float) ∧
     (nullish (rawSpanField l (js "line")) → sp_line (l_span lab) = 1%float) ∧
     (nullish (rawSpanField l (js "column")) → sp_column (l_span lab) = 1%float) ∧
     (∀ v, rawSpanField l (js "offset") = Some v → v ≠ JNull →
           ToNumber v = Return (sp_offset (l_span lab))) ∧
     (∀ v, rawSpanField l (js "length") = Some v → v ≠ JNull →
           ToNumber v = Return (sp_length (l_span lab))) ∧
     (∀ v, rawSpanField l (js "line") = Some v → v ≠ JNull →
           ToNumber v = Return (sp_line (l_span lab))) ∧
     (∀ v, rawSpanField l (js "column") = Some v → v ≠ JNull →
           ToNumber v = Return (sp_column (l_span lab))) ∧
     l_label lab = match getProp l (js "label") with
                   | Some (JStr s) => Some s
                   | _ => None
                   end) ∧
  ((∀ k, k ∈ [js "offset"; js "length"; js "line"; js "column"] →
         nullish (rawSpanField l k) ∨ ∃ x, rawSpanField l k = Some (JNum x)) →
   ∃ lab, parseLabel l = Return lab) ∧
  (∀ lab, parseLabel l = Return lab →
     (nullish (getProp l (js "span")) ∨
      (∃ b, getProp l (js "span") = Some (JBool b)) ∨
      (∃ x, getProp l (js "span") = Some (JNum x)) →
      l_span lab = defaultSpan) ∧
     (∀ s, getProp l (js "span") = Some (JStr s) →
           l_span lab = {| sp_offset := 0; sp_length := numberOfNat (length s);
                           sp_line := 1; sp_column := 1 |}) ∧
     (∀ items, getProp l (js "span") = Some (JArr items) →
               l_span lab = {| sp_offset := 0;
                               sp_length := numberOfNat (length items);
                               sp_line := 1; sp_column := 1 |})) ∧
  (∀ fields k, getProp l (js "span") = Some (JObj fields) →
               k ∈ [js "offset"; js "length"; js "line"; js "column"] →
               rawSpanField l k = assoc k fields) ∧
  ToNumber (JBool true) = Return 1%float.
Proof.
  split; [|split; [|split; [|split]]].
  - intros lab Hp. rewrite parseLabel_unfold in Hp.
    inv_bind @bind_Return Hp. injection Hp as <-. cbn [l_span l_label sp_offset sp_length sp_line sp_column].
    repeat split;
      try (intros Hn; eapply numberOr_nullish; eassumption);
      try (intros v Hv Hnn; eapply numberOr_value; [exact Hnn|];
           rewrite <- Hv; eassumption).
  - intros Hall. rewrite parseLabel_unfold.
    destruct (numberOr_total (rawSpanField l (js "offset")) 0%float) as [o Ho].
    { apply Hall. set_solver. }
    destruct (numberOr_total (rawSpanField l (js "length")) 0%float) as [n Hn].
    { apply Hall. set_solver. }
    destruct (numberOr_total (rawSpanField l (js "line")) 1%float) as [li Hli].
    { apply Hall. set_solver. }
    destruct (numberOr_total (rawSpanField l (js "column")) 1%float) as [c Hc].
    { apply Hall. set_solver. }
    rewrite Ho, Hn, Hli, Hc. simpl. eauto.
  - intros lab Hp. rewrite parseLabel_unfold in Hp. unfold rawSpanField in Hp.
    split; [|split].
    + intros [[Hs | Hs] | [[b Hs] | [x Hs]]]; rewrite Hs in Hp;
        by injection Hp as <-.
    + intros s Hs. rewrite Hs in Hp. by injection Hp as <-.
    + intros items Hs. rewrite Hs in Hp. by injection Hp as <-.
  - intros fields k Hs _. unfold rawSpanField. by rewrite Hs.
  - reflexivity.
Qed.

Lemma parseLabel_defaults_witness :
  (∃ lab,
     parseLabel (H := exHost) exBoolOffsetLabel = Return lab ∧
     sp_length (l_span lab) = 0%float ∧
     sp_column (l_span lab) = 1%float ∧
     ToNumber (H := exHost) (JBool true) = Return (sp_offset (l_span lab)) ∧
     ToNumber (H := exHost) (JNum 7) = Return (sp_line (l_span lab)) ∧
     l_label lab = Some (js "x")) ∧
  (∃ lab,
     parseLabel (H := exHost) exStringSpanLabel = Return lab ∧
     l_span lab = {| sp_offset := 0; sp_length := 3; sp_line := 1; sp_column := 1 |}).
Proof.
  split.
  - eexists. split; [reflexivity|].
    pose proof (proj1 (parseLabel_defaults (H := exHost) exBoolOffsetLabel) _ eq_refl)
      as (_ & Hlen & _ & Hcol & Hoff & _ & Hline & _ & Hlab).
    split; [apply Hlen; by left|].
    split; [apply Hcol; by left|].
    split; [apply (Hoff (JBool true)); [reflexivity | discriminate]|].
    split; [apply (Hline (JNum 7)); [reflexivity | discriminate]|].
    exact Hlab.
  - eexists. split; [reflexivity|].
    pose proof (proj1 (proj2 (proj2 (parseLabel_defaults (H := exHost)
                                       exStringSpanLabel))) _ eq_refl)
      as (_ & Hstr & _).
    exact (Hstr (js "abc") eq_refl).
Defined.

(** C4 as stated fails: a span field whose raw value is not a number is not
    defaulted but converted; an offset of [true] becomes 1, not 0. *)
Lemma parseLabel_non_numeric_counterexample :
  ¬ (∀ (H : Host) l lab,
       isObject l = true →
       parseLabel l = Return lab →
       (∀ x, rawSpanField l (js "offset") ≠ Some (JNum x)) →
       sp_offset (l_span lab) = 0%float).
Proof.
  intros Hclaim.
  specialize (Hclaim exHost exBoolOffsetLabel _ eq_refl eq_refl).
  assert (sp_offset (l_span
            {| l_label := Some (js "x");
               l_span := {| sp_offset := 1; sp_length := 0;
                            sp_line := 7; sp_column := 1 |} |}) = 0%float) as Heq.
  { apply Hclaim. intros x Hx. discriminate Hx. }
  apply (f_equal (fun x => PrimFloat.ltb 0 x)) in Heq.
  vm_compute in Heq. discriminate Heq.
Qed.

(** ** The parser: documents it throws on *)

(** C5 at a failing input.  The document exToStringDoc has a root object with
    a diagnostics array whose one element has the four keys; its message is
    an object with an own toString property.  On any input that decodes to
    it, parseOxlintJson does not return: String() throws a TypeError. *)
Theorem parseOxlintJson_toString_TypeError `{H : Host} input :
  trim input ≠ [] →
  JSON_parse input = inr exToStringDoc →
  isOxlintReport exToStringDoc = true ∧
  Forall (fun d => isOxlintDiagnostic d = true) (rawDiagnostics exToStringDoc) ∧
  parseOxlintJson input = Throw ToPrimitiveTypeError.
Proof.
  intros Hne Hdec. split; [reflexivity|]. split; [by repeat constructor|].
  unfold parseOxlintJson. destruct (decide (trim input = [])); [done|].
  rewrite Hdec. reflexivity.
Qed.

Lemma parseOxlintJson_toString_TypeError_witness :
  trim exToStringText ≠ [] ∧
  JSON_parse (Host := exHost) exToStringText = inr exToStringDoc ∧
  isOxlintReport exToStringDoc = true ∧
  Forall (fun d => isOxlintDiagnostic d = true) (rawDiagnostics exToStringDoc) ∧
  parseOxlintJson (H := exHost) exToStringText = Throw ToPrimitiveTypeError.
Proof.
  assert (trim exToStringText ≠ []) as Hne by (vm_compute; discriminate).
  split; [exact Hne|]. split; [reflexivity|].
  exact (parseOxlintJson_toString_TypeError (H := exHost) exToStringText Hne eq_refl).
Defined.

(** C6 at a failing input.  The document exFilesDoc has a root object with a
    diagnostics array; its number_of_files is an object with an own toString
    property.  On any input that is not blank and decodes to it,
    parseOxlintJson throws, and what it throws is none of EmptyInput,
    MalformedJson and InvalidShape. *)
Theorem parseOxlintJson_fourth_error `{H : Host} input :
  trim input ≠ [] →
  JSON_parse input = inr exFilesDoc →
  isOxlintReport exFilesDoc = true ∧
  ∃ e, parseOxlintJson input = Throw e ∧
       e ≠ EmptyInput ∧ (∀ c, e ≠ MalformedJson c) ∧ e ≠ InvalidShape.
Proof.
  intros Hne Hdec. split; [reflexivity|].
  exists ToPrimitiveTypeError. split.
  - unfold parseOxlintJson. destruct (decide (trim input = [])); [done|].
    rewrite Hdec. reflexivity.
  - repeat split; discriminate.
Qed.

Lemma parseOxlintJson_fourth_error_witness :
  trim exFilesText ≠ [] ∧
  JSON_parse (Host := exHost) exFilesText = inr exFilesDoc ∧
  isOxlintReport exFilesDoc = true ∧
  ∃ e, parseOxlintJson (H := exHost) exFilesText = Throw e ∧
       e ≠ EmptyInput ∧ (∀ c, e ≠ MalformedJson c) ∧ e ≠ InvalidShape.
Proof.
  assert (trim exFilesText ≠ []) as Hne by (vm_compute; discriminate).
  split; [exact Hne|]. split; [reflexivity|].
  exact (parseOxlintJson_fourth_error (H := exHost) exFilesText Hne eq_refl).
Defined.

(** ** Induction on documents *)

Lemma JSON_nested_ind (P : JSON → Prop) :
  P JNull → (∀ b, P (JBool b)) → (∀ x, P (JNum x)) → (∀ s, P (JStr s)) →
  (∀ items, Forall P items → P (JArr items)) →
  (∀ fields, Forall (fun kv => P (snd kv)) fields → P (JObj fields)) →
  ∀ v, P v.
Proof.
  intros Hnull Hbool Hnum Hstr Harr Hobj.
  refine (fix IH (v : JSON) : P v :=
            match v with
            | JNull => Hnull
            | JBool b => Hbool b
            | JNum x => Hnum x
            | JStr s => Hstr s
            | JArr items =>
                Harr items
                  ((fix go (l : list JSON) : Forall P l :=
                      match l with
                      | [] => @List.Forall_nil _ P
                      | x :: rest => @List.Forall_cons _ P x rest (IH x) (go rest)
                      end) items)
            | JObj fields =>
                Hobj fields
                  ((fix go (l : list (jsstring * JSON))
                      : Forall (fun kv => P (snd kv)) l :=
                      match l with
                      | [] => @List.Forall_nil _ _
                      | kv :: rest =>
                          @List.Forall_cons _ (fun kv => P (snd kv)) kv rest
                                            (IH (snd kv)) (go rest)
                      end) fields)
            end).
Qed.

(** ** The parser: what it throws *)

Create HintDb throws.

Lemma Return_only {E A} (a : A) : throwsOnlyTypeError (@Return E A a).
Proof. intros e He. discriminate He. Qed.

Lemma Throw_only {E A} : throwsOnlyTypeError (@Throw E A ToPrimitiveTypeError).
Proof. intros e He. by injection He as <-. Qed.

Lemma bind_only {E A B} (c : completion E A) (k : A → completion E B) :
  throwsOnlyTypeError c → (∀ a, throwsOnlyTypeError (k a)) →
  throwsOnlyTypeError (bind c k).
Proof.
  intros Hc Hk e He. destruct c as [a|e']; simpl in He.
  - by apply (Hk a).
  - injection He as <-. by apply Hc.
Qed.

Lemma mapM_only {E A B} (f : A → completion E B) xs :
  (∀ x, throwsOnlyTypeError (f x)) → throwsOnlyTypeError (mapM f xs).
Proof.
  intros Hf. induction xs as [|x xs IH]; simpl.
  - apply Return_only.
  - apply bind_only; [apply Hf|]. intros y.
    apply bind_only; [apply IH|]. intros ys. apply Return_only.
Qed.

#[local] Hint Resolve Return_only Throw_only bind_only mapM_only : throws.

Section Throws.
Context `{H : Host}.

Lemma ToString_only v : throwsOnlyTypeError (ToString v).
Proof.
  induction v as [| [|] | x | s | items IHitems | fields _] using JSON_nested_ind;
    simpl; auto with throws.
  - induction IHitems as [|x rest IHx _ IHrest]; [auto with throws|].
    assert (throwsOnlyTypeError
              (match x with JNull => Return [] | _ => ToString x end)) as Hx.
    { destruct x; auto with throws. }
    destruct rest as [|y rest']; [exact Hx|].
    apply bind_only; [exact Hx|]. intros sx.
    apply bind_only; [exact IHrest|]. auto with throws.
  - destruct (assoc (js "toString") fields); auto with throws.
Qed.

Lemma ToNumber_only v : throwsOnlyTypeError (ToNumber v).
Proof.
  destruct v as [| [|] | x | s | items | fields]; simpl; auto with throws;
    (apply bind_only; [apply (ToString_only (JArr items)) || apply (ToString_only (JObj fields)) | auto with throws]).
Qed.

Lemma numberOr_only o dflt : throwsOnlyTypeError (numberOr o dflt).
Proof. apply ToNumber_only. Qed.

Lemma stringOr_only o dflt : throwsOnlyTypeError (stringOr o dflt).
Proof. apply ToString_only. Qed.

Lemma optionalString_only o : throwsOnlyTypeError (optionalString o).
Proof.
  destruct o; simpl; auto with throws.
  apply bind_only; [apply ToString_only | auto with throws].
Qed.

Hint Resolve ToString_only ToNumber_only numberOr_only stringOr_only
  optionalString_only : throws.

Lemma parseLabel_only l : throwsOnlyTypeError (parseLabel l).
Proof.
  rewrite parseLabel_unfold.
  repeat (apply bind_only; [auto with throws | intros ?]). auto with throws.
Qed.

Lemma parseLabels_only o : throwsOnlyTypeError (parseLabels o).
Proof.
  destruct o as [[| | | |items|]|]; simpl; auto with throws.
  apply bind_only; [|auto with throws].
  apply mapM_only, parseLabel_only.
Qed.

Lemma parseRelated_only r : throwsOnlyTypeError (parseRelated r).
Proof.
  unfold parseRelated.
  apply bind_only; [auto with throws | intros ?].
  apply bind_only; [apply parseLabels_only | auto with throws].
Qed.

Lemma parseDiagnostic_only d : throwsOnlyTypeError (parseDiagnostic d).
Proof.
  unfold parseDiagnostic.
  do 3 (apply bind_only; [auto with throws | intros ?]).
  apply bind_only.
  { destruct (getProp d (js "causes")) as [[| | | |items|]|]; auto with throws. }
  intros ?.
  do 3 (apply bind_only; [auto with throws | intros ?]).
  apply bind_only; [apply parseLabels_only | intros ?].
  apply bind_only; [|auto with throws].
  destruct (getProp d (js "related")) as [[| | | |items|]|]; auto with throws.
  apply mapM_only, parseRelated_only.
Qed.

End Throws.

(** ** The parser: its failures, in order *)

Lemma trimStart_nil s : trimStart s = [] ↔ Forall (fun c => isWhiteSpace c = true) s.
Proof.
  induction s as [|c s IH]; simpl; [by split|].
  destruct (isWhiteSpace c) eqn:Ec.
  - rewrite IH, Forall_cons. tauto.
  - rewrite Forall_cons. split; [discriminate|]. intros [Hc _]. congruence.
Qed.

Lemma trimStart_fixed s :
  Forall (fun c => isWhiteSpace c = true) (trimStart s) → trimStart s = [].
Proof.
  induction s as [|c s IH]; simpl; [done|].
  destruct (isWhiteSpace c) eqn:Ec; [exact IH|].
  intros Hall. apply Forall_inv in Hall. congruence.
Qed.

(** The input is blank for [trim] exactly when it is empty or made of
    white space and line terminators only. *)
Theorem trim_blank s : trim s = [] ↔ Forall (fun c => isWhiteSpace c = true) s.
Proof.
  unfold trim. rewrite <- trimStart_nil. split.
  - intros Hr. apply (f_equal reverse) in Hr. rewrite reverse_involutive in Hr.
    simpl in Hr. apply trimStart_nil in Hr.
    rewrite Forall_reverse in Hr. by apply trimStart_fixed.
  - intros ->. reflexivity.
Qed.

Lemma parseOxlintJson_cases `{H : Host} input :
  (trim input = [] ∧ parseOxlintJson input = Throw EmptyInput) ∨
  (trim input ≠ [] ∧
   ∃ err, JSON_parse input = inl err ∧
          parseOxlintJson input = Throw (MalformedJson err)) ∨
  (trim input ≠ [] ∧
   ∃ parsed, JSON_parse input = inr parsed ∧ isOxlintReport parsed = false ∧
             parseOxlintJson input = Throw InvalidShape) ∨
  (trim input ≠ [] ∧
   ∃ parsed, JSON_parse input = inr parsed ∧ isOxlintReport parsed = true ∧
             throwsOnlyTypeError (parseOxlintJson input)).
Proof.
  unfold parseOxlintJson.
  destruct (decide (trim input = [])) as [Hb|Hne]; [by left|]. right.
  destruct (JSON_parse input) as [err|parsed] eqn:Hdec; [left; eauto|]. right.
  destruct (isOxlintReport parsed) eqn:Hrep; cbn [negb]; [right|left; eauto 6].
  split; [done|]. exists parsed. split; [done|]. split; [done|].
  apply bind_only.
  { apply mapM_only, parseDiagnostic_only. }
  intros ds.
  apply bind_only; [apply numberOr_only | intros ?].
  apply bind_only.
  { destruct (getProp parsed (js "number_of_rules")) as [[| | | | |]|];
      try apply Return_only;
      (apply bind_only; [apply ToNumber_only | intros ?; apply Return_only]). }
  intros ?.
  apply bind_only; [apply numberOr_only | intros ?].
  apply bind_only; [apply numberOr_only | intros ?]. apply Return_only.
Qed.

(** The three documented failures of parseOxlintJson, each exactly under its
    condition and in the order the code checks them.  EmptyInput is thrown
    exactly on a blank input.  MalformedJson is thrown exactly on an input
    that is not blank and that JSON.parse rejects, and its cause is the error
    of JSON.parse.  InvalidShape is thrown exactly on an input that is not
    blank and decodes to a value that is not an object with a diagnostics
    array.  So an input that passes the three checks ends in none of the
    three. *)
Theorem parseOxlintJson_errors `{H : Host} input :
  (parseOxlintJson input = Throw EmptyInput ↔ trim input = []) ∧
  (∀ err, parseOxlintJson input = Throw (MalformedJson err) ↔
          trim input ≠ [] ∧ JSON_parse input = inl err) ∧
  (parseOxlintJson input = Throw InvalidShape ↔
   trim input ≠ [] ∧
   ∃ parsed, JSON_parse input = inr parsed ∧ isOxlintReport parsed = false).
Proof.
  destruct (parseOxlintJson_cases input)
    as [[Hb Hp] | [[Hne (err & Hdec & Hp)] |
        [[Hne (parsed & Hdec & Hrep & Hp)] | [Hne (parsed & Hdec & Hrep & Hp)]]]].
  - rewrite Hp. split; [done|]. split.
    + intros err. split; [discriminate|]. by intros [? _].
    + split; [discriminate|]. by intros [? _].
  - rewrite Hp. split; [split; [discriminate|done]|]. split.
    + intros err'. split.
      * intros [= ->]. done.
      * intros [_ Hd]. rewrite Hdec in Hd. by injection Hd as ->.
    + split; [discriminate|]. intros (_ & parsed & Hd & _). congruence.
  - rewrite Hp. split; [split; [discriminate|done]|]. split.
    + intros err. split; [discriminate|]. intros [_ Hd]. congruence.
    + split; [|done]. intros _. eauto.
  - split; [|split].
    + split; [|done]. intros He. apply Hp in He. discriminate He.
    + intros err. split.
      * intros He. apply Hp in He. discriminate He.
      * intros [_ Hd]. congruence.
    + split.
      * intros He. apply Hp in He. discriminate He.
      * intros (_ & parsed' & Hd & Hr). congruence.
Qed.

(** ** The parser: admission of diagnostics *)

Lemma isOxlintDiagnostic_keys v : isOxlintDiagnostic v = true ↔ hasDiagnosticKeys v.
Proof.
  unfold isOxlintDiagnostic, hasDiagnosticKeys, hasProperty.
  rewrite !andb_true_iff, !Forall_cons, Forall_nil.
  destruct (getProp v (js "message")), (getProp v (js "code")),
    (getProp v (js "severity")), (getProp v (js "filename"));
    split; intros; destruct_and?;
    repeat split; eauto; try discriminate;
    match goal with Hs : is_Some None |- _ => by destruct Hs end.
Qed.

(** The diagnostics of an accepted input are, in order, the parsed forms of
    those elements of the diagnostics array that are objects with the four
    keys message, code, severity and filename; every other element is left
    out. *)
Theorem parseOxlintJson_admission `{H : Host} input report :
  parseOxlintJson input = Return report →
  ∃ parsed items,
    JSON_parse input = inr parsed ∧
    getProp parsed (js "diagnostics") = Some (JArr items) ∧
    Forall2 (fun raw d => parseDiagnostic raw = Return d)
            (filter hasDiagnosticKeys items) (diagnostics report).
Proof.
  intros Hp.
  apply parseOxlintJson_Return in Hp as (parsed & _ & Hdec & Hrep & Hds).
  unfold isOxlintReport in Hrep. apply andb_true_iff in Hrep as [_ Hrep].
  unfold rawDiagnostics in Hds.
  destruct (getProp parsed (js "diagnostics")) as [[| | | |items|]|] eqn:Ediag;
    try discriminate.
  exists parsed, items. split; [done|]. split; [done|].
  rewrite <- (list_filter_iff (fun d => isOxlintDiagnostic d = true)
                hasDiagnosticKeys); [done|].
  intros x. apply isOxlintDiagnostic_keys.
Qed.

Lemma parseOxlintJson_admission_witness :
  ∃ report parsed items,
    parseOxlintJson (H := exHost) exSeverityText = Return report ∧
    JSON_parse (Host := exHost) exSeverityText = inr parsed ∧
    getProp parsed (js "diagnostics") = Some (JArr items) ∧
    length items = 3 ∧ length (diagnostics report) = 2 ∧
    Forall2 (fun raw d => parseDiagnostic (H := exHost) raw = Return d)
            (filter hasDiagnosticKeys items) (diagnostics report).
Proof.
  destruct (parseOxlintJson_admission (H := exHost) exSeverityText _ eq_refl)
    as (parsed & items & Hdec & Hitems & Hall).
  eexists _, parsed, items.
  split; [reflexivity|]. split; [exact Hdec|]. split; [exact Hitems|].
  injection Hdec as <-. injection Hitems as <-.
  split; [reflexivity|]. split; [reflexivity|]. exact Hall.
Defined.

(** ** The converter: paths, message and header *)

(** The three path mappings of the specification. *)
Theorem pathToUri_examples :
  pathToUri (js "C:\Users\foo\test.ts") = js "file:///C:/Users/foo/test.ts" ∧
  pathToUri (js "/home/user/a.ts") = js "file:///home/user/a.ts" ∧
  pathToUri (js "src/test.ts") = js "src/test.ts".
Proof. repeat split; reflexivity. Qed.

(** The message of a result is the diagnostic's message, followed by a line
    feed and the help text when the help is present and not empty; its level
    is the diagnostic's severity. *)
Theorem resultOf_message_level d :
  text (message (resultOf d)) =
    Some (match d_help d with
          | Some h => if decide (h = []) then d_message d
                      else d_message d ++ [10%N] ++ h
          | None => d_message d
          end) ∧
  level (resultOf d) = Some (match d_severity d with
                             | SevError => js "error"
                             | SevWarning => js "warning"
                             end).
Proof.
  split.
  - unfold resultOf, whenTruthy.
    destruct (d_labels d) as [|? [|? ?]], (d_help d) as [[|c h]|]; reflexivity.
  - rewrite resultOf_level. by destruct (d_severity d).
Qed.

(** The log carries the SARIF 2.1.0 schema and version and one run, whose
    driver is named oxlint, with the documentation URL, the tool version when
    one is given and not empty, and UTF-16 code units as column kind. *)
Theorem convertToSarif_header report tv :
  schema (convertToSarif report tv) = Some SARIF_SCHEMA ∧
  log_version (convertToSarif report tv) = js "2.1.0" ∧
  ∃ run,
    runs (convertToSarif report tv) = [run] ∧
    name (driver run) = js "oxlint" ∧
    informationUri (driver run) = Some (js "https://oxc.rs/docs/guide/usage/linter") ∧
    version (driver run) = whenTruthy tv ∧
    columnKind run = Some (js "utf16CodeUnits").
Proof.
  split; [reflexivity|]. split; [reflexivity|].
  eexists. split; [apply convertToSarif_runs|]. cbn [driver columnKind].
  assert (∀ ds st,
            name (driver (sarifRunBuilder (foldl loopBody st ds))) =
              name (driver (sarifRunBuilder st)) ∧
            informationUri (driver (sarifRunBuilder (foldl loopBody st ds))) =
              informationUri (driver (sarifRunBuilder st)) ∧
            version (driver (sarifRunBuilder (foldl loopBody st ds))) =
              version (driver (sarifRunBuilder st)) ∧
            columnKind (sarifRunBuilder (foldl loopBody st ds)) =
              columnKind (sarifRunBuilder st)) as Hkeep.
  { induction ds as [|d ds IH]; intros st; simpl; [done|].
    destruct (IH (loopBody st d)) as (-> & -> & -> & ->).
    unfold loopBody. by destruct (ruleIndexMap st !! ruleIdOf d). }
  unfold convertLoop.
  destruct (Hkeep (diagnostics report)
              {| ruleIndexMap := ∅; sarifRunBuilder := initialRun tv |})
    as (-> & -> & -> & ->).
  cbn [sarifRunBuilder]. unfold initialRun. by destruct (whenTruthy tv).
Qed.

(** ** The parser: what the fields of a diagnostic become *)

Section FieldFacts.
Context `{H : Host}.

Lemma stringOr_string o dflt s x :
  o = Some (JStr s) → stringOr o dflt = Return x → x = s.
Proof. intros -> Hx. simpl in Hx. by injection Hx. Qed.

Lemma stringOr_nullish o dflt x :
  nullish o → stringOr o dflt = Return x → x = dflt.
Proof. intros [-> | ->]; simpl; intros Hx; by injection Hx. Qed.

Lemma parseLabels_spec raw r :
  parseLabels raw = Return r →
  match raw with
  | Some (JArr items) =>
      ∃ ls, r = Some ls ∧
            Forall2 (fun l lab => parseLabel l = Return lab)
                    (filter (fun l => isObject l = true) items) ls
  | _ => r = None
  end.
Proof.
  intros Hp. destruct raw as [[| | | |items|]|]; simpl in Hp;
    try (by injection Hp as <-).
  apply bind_Return in Hp as (ls & Hls & Hp). injection Hp as <-.
  exists ls. split; [done|]. by apply mapM_Return.
Qed.

End FieldFacts.

(** Labels and related entries of a parsed diagnostic.  When the raw labels
    value is an array, the labels are the parsed forms, in order, of its
    elements that are objects or arrays; every other element (null, boolean,
    number, string) is left out.  When it is anything else the labels are
    empty.  The same holds for the related entries, except that the labels
    of a related entry are undefined, not empty, when its raw labels value is
    no array. *)
Theorem parseDiagnostic_labels_related `{H : Host} raw d :
  parseDiagnostic raw = Return d →
  match getProp raw (js "labels") with
  | Some (JArr items) =>
      Forall2 (fun l lab => parseLabel l = Return lab)
              (filter (fun l => isObject l = true) items) (d_labels d)
  | _ => d_labels d = []
  end ∧
  match getProp raw (js "related") with
  | Some (JArr items) =>
      Forall2
        (fun r rel =>
           match getProp r (js "labels") with
           | Some (JArr ls) =>
               ∃ labs, rel_labels rel = Some labs ∧
                       Forall2 (fun l lab => parseLabel l = Return lab)
                               (filter (fun l => isObject l = true) ls) labs
           | _ => rel_labels rel = None
           end)
        (filter (fun r => isObject r = true) items) (d_related d)
  | _ => d_related d = []
  end.
Proof.
  intros Hp. unfold parseDiagnostic in Hp. inv_bind @bind_Return Hp.
  injection Hp as <-. cbn [d_labels d_related]. split.
  - match goal with Hl : parseLabels _ = Return _ |- _ =>
      apply parseLabels_spec in Hl; rename Hl into Hlabels end.
    destruct (getProp raw (js "labels")) as [[| | | |items|]|];
      try (by rewrite Hlabels).
    destruct Hlabels as (ls & -> & Hall). exact Hall.
  - match goal with
    | Hr : match getProp raw (js "related") with _ => _ end = Return _ |- _ =>
        rename Hr into Hrel
    end.
    destruct (getProp raw (js "related")) as [[| | | |items|]|];
      try (by injection Hrel as <-).
    apply mapM_Return in Hrel. eapply Forall2_impl; [exact Hrel|].
    intros r rel Hr. simpl in Hr. unfold parseRelated in Hr.
    inv_bind @bind_Return Hr. injection Hr as <-. cbn [rel_labels].
    match goal with Hl : parseLabels _ = Return _ |- _ =>
      apply parseLabels_spec in Hl; rename Hl into Hlabels end.
    destruct (getProp r (js "labels")) as [[| | | |ls|]|]; try done.
Qed.

Lemma parseDiagnostic_labels_related_witness :
  ∃ d,
    parseDiagnostic (H := exHost)
      (JObj [ (js "labels", JArr [ JNum 3; exBoolOffsetLabel; JNull ]);
              (js "related", JStr (js "none")) ]) = Return d ∧
    Forall2 (fun l lab => parseLabel (H := exHost) l = Return lab)
            [ exBoolOffsetLabel ] (d_labels d) ∧
    d_related d = [].
Proof.
  eexists. split; [reflexivity|].
  exact (parseDiagnostic_labels_related (H := exHost)
           (JObj [ (js "labels", JArr [ JNum 3; exBoolOffsetLabel; JNull ]);
                   (js "related", JStr (js "none")) ]) _ eq_refl).
Defined.

(** A label without a span (the span is missing or null) is parsed as a label
    with the default span (offset 0, length 0, line 1, column 1), which the
    converter turns into a region with startLine 1, startColumn 1 and no
    endColumn.  An array among the labels passes the object filter of
    parseLabels and is parsed as such a label, without text. *)
Theorem parseLabel_without_span `{H : Host} :
  (∀ l, nullish (getProp l (js "span")) →
        ∃ lab,
          parseLabel l = Return lab ∧
          l_span lab = defaultSpan ∧
          buildRegion (l_span lab) =
            {| startLine := 1; startColumn := Some 1%float; endColumn := None |}) ∧
  (∀ items,
     isObject (JArr items) = true ∧
     parseLabel (JArr items) = Return {| l_label := None; l_span := defaultSpan |}).
Proof.
  split.
  - intros l Hspan. rewrite parseLabel_unfold. unfold rawSpanField.
    eexists. split; [destruct Hspan as [-> | ->]; reflexivity|].
    cbn [l_span]. split; reflexivity.
  - intros items. split; reflexivity.
Qed.

Lemma parseLabel_without_span_witness :
  ∃ lab,
    parseLabel (H := exHost) (JObj [ (js "span", JNull); (js "label", JStr (js "x")) ])
      = Return lab ∧
    l_span lab = defaultSpan ∧
    buildRegion (l_span lab) =
      {| startLine := 1; startColumn := Some 1%float; endColumn := None |}.
Proof.
  exact (proj1 (parseLabel_without_span (H := exHost))
           (JObj [ (js "span", JNull); (js "label", JStr (js "x")) ])
           (or_intror eq_refl)).
Defined.

(** The string fields of a parsed diagnostic.  A message, code or filename
    that is a string is kept as it is, and one that is null becomes the empty
    string.  A url or help is absent exactly when its key is missing; a
    string is kept, and null becomes the string null.  The causes are empty
    unless the raw value is an array, whose elements are each converted with
    String(). *)
Theorem parseDiagnostic_strings `{H : Host} raw d :
  parseDiagnostic raw = Return d →
  (∀ s, getProp raw (js "message") = Some (JStr s) → d_message d = s) ∧
  (∀ s, getProp raw (js "code") = Some (JStr s) → d_code d = s) ∧
  (∀ s, getProp raw (js "filename") = Some (JStr s) → d_filename d = s) ∧
  (nullish (getProp raw (js "message")) → d_message d = []) ∧
  (nullish (getProp raw (js "code")) → d_code d = []) ∧
  (nullish (getProp raw (js "filename")) → d_filename d = []) ∧
  (d_url d = None ↔ getProp raw (js "url") = None) ∧
  (d_help d = None ↔ getProp raw (js "help") = None) ∧
  (∀ s, getProp raw (js "url") = Some (JStr s) → d_url d = Some s) ∧
  (∀ s, getProp raw (js "help") = Some (JStr s) → d_help d = Some s) ∧
  (getProp raw (js "url") = Some JNull → d_url d = Some (js "null")) ∧
  (getProp raw (js "help") = Some JNull → d_help d = Some (js "null")) ∧
  match getProp raw (js "causes") with
  | Some (JArr items) =>
      Forall2 (fun v c => ToString v = Return c) items (d_causes d)
  | _ => d_causes d = []
  end.
Proof.
  intros Hp. unfold parseDiagnostic in Hp.
  apply bind_Return in Hp as (m & Hm & Hp).
  apply bind_Return in Hp as (c & Hc & Hp).
  apply bind_Return in Hp as (sv & Hsv & Hp).
  apply bind_Return in Hp as (cs & Hcs & Hp).
  apply bind_Return in Hp as (u & Hu & Hp).
  apply bind_Return in Hp as (h & Hh & Hp).
  apply bind_Return in Hp as (f & Hf & Hp).
  apply bind_Return in Hp as (ls & Hls & Hp).
  apply bind_Return in Hp as (rs & Hrs & Hp).
  injection Hp as <-.
  cbn [d_message d_code d_filename d_url d_help d_causes].
  assert (∀ o x, optionalString o = Return x →
                 (x = None ↔ o = None) ∧
                 (∀ s, o = Some (JStr s) → x = Some s) ∧
                 (o = Some JNull → x = Some (js "null"))) as Hopt.
  { intros o x Hx. destruct o as [v|]; simpl in Hx.
    - apply bind_Return in Hx as (s & Hs & Hx). injection Hx as <-.
      split; [split; discriminate|]. split.
      + intros s' [= ->]. simpl in Hs. by injection Hs as ->.
      + intros [= ->]. simpl in Hs. by injection Hs as <-.
    - injection Hx as <-. split; [done|]. split; discriminate. }
  destruct (Hopt _ _ Hu) as (Hu1 & Hu2 & Hu3).
  destruct (Hopt _ _ Hh) as (Hh1 & Hh2 & Hh3).
  repeat split; try done;
    try (intros s Hs; eapply stringOr_string; eassumption);
    try (intros Hn; eapply stringOr_nullish; eassumption);
    try (apply Hu1); try (apply Hh1).
  destruct (getProp raw (js "causes")) as [[| | | |items|]|];
    try (by injection Hcs as <-).
  by apply mapM_Return.
Qed.

Lemma parseDiagnostic_strings_witness :
  ∃ d,
    parseDiagnostic (H := exHost)
      (JObj [ (js "message", JStr (js "m")); (js "code", JNull);
              (js "severity", JStr (js "warn")); (js "filename", JStr (js "a.ts"));
              (js "url", JNull) ]) = Return d ∧
    d_message d = js "m" ∧ d_code d = [] ∧ d_filename d = js "a.ts" ∧
    d_url d = Some (js "null") ∧ d_help d = None ∧ d_causes d = [].
Proof.
  eexists. split; [reflexivity|].
  pose proof (parseDiagnostic_strings (H := exHost)
                (JObj [ (js "message", JStr (js "m")); (js "code", JNull);
                        (js "severity", JStr (js "warn"));
                        (js "filename", JStr (js "a.ts"));
                        (js "url", JNull) ]) _ eq_refl)
    as (Hm & _ & Hf & _ & Hc & _ & _ & Hh & _ & _ & Hu & _ & Hcs).
  split; [exact (Hm _ eq_refl)|].
  split; [apply Hc; by right|].
  split; [exact (Hf _ eq_refl)|].
  split; [exact (Hu eq_refl)|].
  split; [by apply Hh|]. exact Hcs.
Defined.

(** ** The parser: shapes and metadata *)

(** Only a plain object passes the two type guards: a report is an object
    whose own diagnostics property is an array, and a diagnostic is an object
    with the four keys.  An array, although its typeof is object, is never a
    report and never a diagnostic, and neither is null or a primitive. *)
Theorem type_guards_objects_only (v : JSON) :
  (isOxlintReport v = true ↔
   ∃ fields items, v = JObj fields ∧
                   assoc (js "diagnostics") fields = Some (JArr items)) ∧
  (isOxlintDiagnostic v = true ↔
   ∃ fields, v = JObj fields ∧
             Forall (fun k => is_Some (assoc k fields))
                    [js "message"; js "code"; js "severity"; js "filename"]).
Proof.
  split.
  - unfold isOxlintReport. split.
    + intros Hr. apply andb_true_iff in Hr as [Hobj Hd].
      destruct v as [| | | |items|fields]; try discriminate;
        try (vm_compute in Hd; discriminate).
      simpl in Hd.
      destruct (assoc (js "diagnostics") fields) as [[| | | |items|]|] eqn:E;
        try discriminate. eauto.
    + intros (fields & items & -> & Hd). simpl. by rewrite Hd.
  - rewrite isOxlintDiagnostic_keys. unfold hasDiagnosticKeys. split.
    + intros [Hobj Hkeys]. destruct v as [| | | |items|fields]; try discriminate.
      * apply Forall_cons in Hkeys as [[x Hx] _]. vm_compute in Hx. discriminate.
      * exists fields. split; [reflexivity | exact Hkeys].
    + intros (fields & -> & Hkeys). split; [reflexivity | exact Hkeys].
Qed.

(** The metadata of an accepted input.  number_of_files, threads_count and
    start_time are 0, 1 and 0 when the key is missing or null, and the given
    number when it is a number; number_of_rules is null when the key is
    missing or null, and the given number when it is a number. *)
Theorem parseOxlintJson_metadata `{H : Host} input report :
  parseOxlintJson input = Return report →
  ∃ parsed,
    JSON_parse input = inr parsed ∧
    (nullish (getProp parsed (js "number_of_files")) → number_of_files report = 0%float) ∧
    (nullish (getProp parsed (js "threads_count")) → threads_count report = 1%float) ∧
    (nullish (getProp parsed (js "start_time")) → start_time report = 0%float) ∧
    (nullish (getProp parsed (js "number_of_rules")) ↔ number_of_rules report = None) ∧
    (∀ x, getProp parsed (js "number_of_files") = Some (JNum x) → number_of_files report = x) ∧
    (∀ x, getProp parsed (js "threads_count") = Some (JNum x) → threads_count report = x) ∧
    (∀ x, getProp parsed (js "start_time") = Some (JNum x) → start_time report = x) ∧
    (∀ x, getProp parsed (js "number_of_rules") = Some (JNum x) →
          number_of_rules report = Some x).
Proof.
  unfold parseOxlintJson. intros Hp.
  destruct (decide (trim input = [])) as [|Hne]; [discriminate|].
  destruct (JSON_parse input) as [err|parsed]; [discriminate|].
  destruct (isOxlintReport parsed); simpl in Hp; [|discriminate].
  apply bind_Return in Hp as (ds & Hds & Hp).
  apply bind_Return in Hp as (nf & Hnf & Hp).
  apply bind_Return in Hp as (nr & Hnr & Hp).
  apply bind_Return in Hp as (tc & Htc & Hp).
  apply bind_Return in Hp as (st & Hst & Hp).
  injection Hp as <-. exists parsed. split; [done|].
  cbn [number_of_files threads_count start_time number_of_rules].
  assert (∀ o dflt y x, o = Some (JNum x) → numberOr o dflt = Return y → y = x)
    as Hnum.
  { intros o dflt y x -> Hy. simpl in Hy. by injection Hy. }
  split; [intros Hn; eapply numberOr_nullish; eassumption|].
  split; [intros Hn; eapply numberOr_nullish; eassumption|].
  split; [intros Hn; eapply numberOr_nullish; eassumption|].
  split.
  { destruct (getProp parsed (js "number_of_rules")) as [v|].
    - destruct v; try (injection Hnr as <-; split; [done | by right]);
        apply bind_Return in Hnr as (y & _ & Hnr); injection Hnr as <-;
        (split; [intros [? | ?]; discriminate | discriminate]).
    - injection Hnr as <-. split; [done | by left]. }
  split; [intros x Hx; eapply Hnum; eassumption|].
  split; [intros x Hx; eapply Hnum; eassumption|].
  split; [intros x Hx; eapply Hnum; eassumption|].
  intros x Hx. rewrite Hx in Hnr. simpl in Hnr. by injection Hnr as <-.
Qed.

Lemma parseOxlintJson_metadata_witness :
  ∃ report parsed,
    parseOxlintJson (H := exHost) exSeverityText = Return report ∧
    JSON_parse (Host := exHost) exSeverityText = inr parsed ∧
    number_of_files report = 0%float ∧ threads_count report = 1%float ∧
    start_time report = 0%float ∧ number_of_rules report = None.
Proof.
  destruct (parseOxlintJson_metadata (H := exHost) exSeverityText _ eq_refl)
    as (parsed & Hdec & Hnf & Htc & Hst & Hnr & _).
  eexists _, parsed. split; [reflexivity|]. split; [exact Hdec|].
  injection Hdec as <-.
  split; [apply Hnf; by left|]. split; [apply Htc; by left|].
  split; [apply Hst; by left|]. apply Hnr. by left.
Defined.

(** ** The converter: paths *)

Lemma slashes_no_backslash p : 92%N ∉ slashes p.
Proof.
  unfold slashes. intros Hin. apply list_elem_of_fmap in Hin as (c & Hc & _).
  destruct (c =? 92)%N eqn:E; [discriminate|].
  apply N.eqb_neq in E. congruence.
Qed.

Lemma slashes_id p : 92%N ∉ p → slashes p = p.
Proof.
  unfold slashes. induction p as [|c p IH]; intros Hnot; csimpl; [done|].
  rewrite not_elem_of_cons in Hnot. destruct Hnot as [Hc Hp].
  rewrite IH by done.
  destruct (c =? 92)%N eqn:E; [|done]. apply N.eqb_eq in E. congruence.
Qed.

Lemma pathToUri_cases p :
  (isWindowsAbsolute (slashes p) = true ∧
   pathToUri p = js "file:///" ++ slashes p) ∨
  (isWindowsAbsolute (slashes p) = false ∧ (∃ rest, slashes p = 47%N :: rest) ∧
   pathToUri p = js "file://" ++ slashes p) ∨
  (isWindowsAbsolute (slashes p) = false ∧ (∀ rest, slashes p ≠ 47%N :: rest) ∧
   pathToUri p = slashes p).
Proof.
  unfold pathToUri. fold (slashes p).
  destruct (isWindowsAbsolute (slashes p)); [by left | right].
  destruct (slashes p) as [|c rest]; [right; done|].
  destruct (decide (c = 47%N)) as [->|Hc]; [left; eauto|].
  right. split; [done|]. split; [congruence|].
  destruct c as [|q]; [done|].
  do 6 (destruct q as [q|q|]; try done).
Qed.

Lemma scheme_no_backslash (u : jsstring) :
  92%N ∉ u → (92%N ∉ js "file:///" ++ u) ∧ (92%N ∉ js "file://" ++ u).
Proof.
  intros Hu. split; rewrite elem_of_app; intros [Hin | Hin]; try done;
    vm_compute in Hin;
    repeat (apply elem_of_cons in Hin as [Hin|Hin]; [discriminate|]);
    by apply not_elem_of_nil in Hin.
Qed.

Lemma pathToUri_no_backslash p : 92%N ∉ pathToUri p.
Proof.
  pose proof (slashes_no_backslash p) as Hno.
  destruct (scheme_no_backslash _ Hno) as [H3 H2].
  destruct (pathToUri_cases p) as [[_ ->] | [(_ & _ & ->) | (_ & _ & ->)]]; done.
Qed.

(** The URI of a path never holds a backslash and always ends with the path
    in which backslashes are replaced by slashes; it is that path itself
    unless the path is absolute (a drive letter, a colon and a slash, or a
    leading slash, after the replacement), and then it starts with file:///. *)
Theorem pathToUri_shape p :
  (92%N ∉ pathToUri p) ∧
  slashes p `suffix_of` pathToUri p ∧
  (pathToUri p = slashes p ∨ js "file:///" `prefix_of` pathToUri p) ∧
  (pathToUri p = slashes p ↔
   isWindowsAbsolute (slashes p) = false ∧ ∀ rest, slashes p ≠ 47%N :: rest).
Proof.
  split; [apply pathToUri_no_backslash|].
  destruct (pathToUri_cases p) as [[Hw ->] | [(Hw & [rest Hrest] & ->) | (Hw & Hrel & ->)]].
  - split; [by apply suffix_app_r|]. split; [right; by apply prefix_app_r|].
    split; [|intros [Hf _]; congruence].
    intros Heq. apply (f_equal length) in Heq. rewrite length_app in Heq.
    simpl in Heq. lia.
  - split; [by apply suffix_app_r|]. split; [right; rewrite Hrest; by exists rest|].
    split; [|intros [_ Hf]; by destruct (Hf rest)].
    intros Heq. apply (f_equal length) in Heq. rewrite length_app in Heq.
    simpl in Heq. lia.
  - split; [done|]. split; [by left|]. done.
Qed.

(** Converting a URI that pathToUri made gives it back unchanged. *)
Theorem pathToUri_idempotent p : pathToUri (pathToUri p) = pathToUri p.
Proof.
  assert (∀ u, 92%N ∉ u → isWindowsAbsolute u = false →
               (∀ rest, u ≠ 47%N :: rest) → pathToUri u = u) as Hfix.
  { intros u Hno Hw Hrel.
    destruct (pathToUri_cases u) as [[Hw' _] | [(_ & [rest Hrest] & _) | (_ & _ & ->)]].
    - rewrite slashes_id in Hw' by done. congruence.
    - rewrite slashes_id in Hrest by done. by destruct (Hrel rest).
    - by apply slashes_id. }
  pose proof (pathToUri_no_backslash p) as Hno.
  destruct (pathToUri_cases p) as [[Hw Hp] | [(Hw & [rest Hrest] & Hp) | (Hw & Hrel & Hp)]];
    rewrite Hp in *; apply Hfix; done.
Qed.

(** ** The converter: rules and results stay in step *)

Lemma firstSeen_length ds : ∀ seen, length (firstSeen seen ds) ≤ length ds.
Proof.
  induction ds as [|d ds IH]; intros seen; simpl; [done|].
  destruct (decide (ruleIdOf d ∈ seen)); simpl.
  - specialize (IH seen). lia.
  - specialize (IH (seen ++ [ruleIdOf d])). lia.
Qed.

Lemma firstSeen_app a : ∀ seen b,
  firstSeen seen (a ++ b) =
  firstSeen seen a ++ firstSeen (seen ++ (ruleIdOf <$> firstSeen seen a)) b.
Proof.
  induction a as [|d a IH]; intros seen b; simpl.
  - by rewrite app_nil_r.
  - destruct (decide (ruleIdOf d ∈ seen)); [apply IH|].
    csimpl. rewrite IH. f_equal. f_equal. f_equal.
    by rewrite <- app_assoc.
Qed.

Lemma rules_lookup_inj st k1 k2 r1 r2 :
  registryInv st →
  rules (driver (sarifRunBuilder st)) !! k1 = Some r1 →
  rules (driver (sarifRunBuilder st)) !! k2 = Some r2 →
  rule_id r1 = rule_id r2 → k1 = k2.
Proof.
  intros Hinv H1 H2 Heq. apply registryInv_NoDup in Hinv.
  eapply NoDup_lookup; [exact Hinv| |].
  - rewrite list_lookup_fmap, H1. reflexivity.
  - rewrite list_lookup_fmap, H2. simpl. by rewrite Heq.
Qed.

(** The rules and the results of a log stay in step: every rule is the rule
    of at least one result, which carries its id and its index; every result
    points to a rule that exists and carries the result's rule id; there are
    never more rules than results, and there are no rules exactly when there
    are no diagnostics. *)
Theorem convertToSarif_rules_used report tv :
  ∃ run,
    runs (convertToSarif report tv) = [run] ∧
    (∀ k r, rules (driver run) !! k = Some r →
            ∃ i res, results run !! i = Some res ∧
                     ruleId res = Some (rule_id r) ∧ ruleIndex res = Some k) ∧
    (∀ i res, results run !! i = Some res →
              ∃ k r, ruleIndex res = Some k ∧
                     rules (driver run) !! k = Some r ∧
                     ruleId res = Some (rule_id r)) ∧
    length (rules (driver run)) ≤ length (results run) ∧
    (rules (driver run) = [] ↔ diagnostics report = []).
Proof.
  eexists. split; [apply convertToSarif_runs|]. cbn [driver results].
  assert (∀ i d, diagnostics report !! i = Some d →
            ∃ k desc,
              (setRuleIndex (ruleIndexMap (convertLoop report tv)) <$>
                 (resultOf <$> diagnostics report)) !! i =
                Some (withRuleIndex k (resultOf d)) ∧
              rules (driver (sarifRunBuilder (convertLoop report tv))) !! k = Some desc ∧
              rule_id desc = ruleIdOf d) as Hat.
  { intros i d Hi.
    destruct (convertToSarif_result_at report tv i d Hi)
      as (run & k & desc & Hrun & Hr & Hdesc & Hid & _).
    rewrite convertToSarif_runs in Hrun. injection Hrun as <-.
    cbn [driver results] in Hr, Hdesc. eauto. }
  split; [|split; [|split]].
  - intros k r Hk. pose proof Hk as Hk'.
    rewrite convertLoop_rules in Hk'.
    apply list_lookup_fmap_Some in Hk' as (d & -> & Hd).
    apply firstSeen_first in Hd as (_ & i & Hi & _).
    destruct (Hat i d Hi) as (k' & desc & Hres & Hdesc & Hid).
    assert (k' = k) as ->.
    { eapply rules_lookup_inj; [apply convertLoop_inv | exact Hdesc | exact Hk |].
      by rewrite Hid, ruleOf_id. }
    exists i, (withRuleIndex k (resultOf d)). split; [exact Hres|].
    cbn [ruleId ruleIndex withRuleIndex]. by rewrite resultOf_ruleId, ruleOf_id.
  - intros i res Hres. pose proof Hres as Hres'.
    rewrite !list_lookup_fmap in Hres'.
    destruct (diagnostics report !! i) as [d|] eqn:Hi; [|discriminate].
    destruct (Hat i d Hi) as (k & desc & Hr & Hdesc & Hid).
    rewrite Hr in Hres. injection Hres as <-.
    exists k, desc. cbn [ruleId ruleIndex withRuleIndex].
    by rewrite resultOf_ruleId, Hid.
  - rewrite convertLoop_rules, !length_fmap. apply firstSeen_length.
  - rewrite convertLoop_rules. destruct (diagnostics report) as [|d ds]; [done|].
    simpl. destruct (decide (ruleIdOf d ∈ [])) as [Hin|_]; [|done].
    by apply not_elem_of_nil in Hin.
Qed.

(** Appending diagnostics to a report never disturbs what was converted
    before: the rules of the shorter report are the first rules of the
    longer one and its results are the first results, with the same rule
    indexes. *)
Theorem convertToSarif_append r1 r2 tv more :
  diagnostics r2 = diagnostics r1 ++ more →
  ∃ run1 run2,
    runs (convertToSarif r1 tv) = [run1] ∧
    runs (convertToSarif r2 tv) = [run2] ∧
    rules (driver run1) `prefix_of` rules (driver run2) ∧
    results run1 `prefix_of` results run2.
Proof.
  intros Hds. eexists _, _.
  split; [apply convertToSarif_runs|]. split; [apply convertToSarif_runs|].
  cbn [driver results].
  assert (rules (driver (sarifRunBuilder (convertLoop r1 tv)))
            `prefix_of` rules (driver (sarifRunBuilder (convertLoop r2 tv))))
    as Hrules.
  { rewrite !convertLoop_rules, Hds, firstSeen_app, fmap_app.
    by apply prefix_app_r. }
  split; [exact Hrules|].
  rewrite Hds, !fmap_app.
  assert (setRuleIndex (ruleIndexMap (convertLoop r2 tv)) <$> (resultOf <$> diagnostics r1)
          = setRuleIndex (ruleIndexMap (convertLoop r1 tv)) <$> (resultOf <$> diagnostics r1))
    as ->; [|by apply prefix_app_r].
  rewrite <- !list_fmap_compose. apply list_fmap_ext.
  intros i d Hi. simpl.
  destruct (convertLoop_registered r1 tv d) as (k & desc & Hk & Hdesc & Hid).
  { apply list_elem_of_lookup. eauto. }
  rewrite (setRuleIndex_registered _ _ k Hk).
  apply setRuleIndex_registered.
  destruct (convertLoop_inv r2 tv) as [_ Hm]. apply Hm.
  exists desc. split; [|done].
  destruct Hrules as [extra ->]. by apply lookup_app_l_Some.
Qed.

Lemma convertToSarif_append_witness :
  ∃ run1 run2,
    runs (convertToSarif exReport None) = [run1] ∧
    runs (convertToSarif exReportTail None) = [run2] ∧
    rules (driver run1) `prefix_of` rules (driver run2) ∧
    results run1 `prefix_of` results run2.
Proof.
  exact (convertToSarif_append exReport exReportTail None _ eq_refl).
Defined.

(** ** The entry point *)

Lemma convertLoop_version report tv :
  version (driver (sarifRunBuilder (convertLoop report tv))) = whenTruthy tv.
Proof.
  unfold convertLoop.
  assert (∀ ds st,
            version (driver (sarifRunBuilder (foldl loopBody st ds))) =
            version (driver (sarifRunBuilder st))) as Hkeep.
  { induction ds as [|d ds IH]; intros st; simpl; [done|].
    rewrite IH. unfold loopBody. by destruct (ruleIndexMap st !! ruleIdOf d). }
  rewrite Hkeep. cbn [sarifRunBuilder]. unfold initialRun.
  by destruct (whenTruthy tv).
Qed.

(** convertOxlintToSarif throws exactly what parseOxlintJson throws, and
    nothing else.  On an accepted input it returns the JSON text (indent 2
    unless one is given) of a log with one run, one result per element of
    the diagnostics array that has the four keys, and no tool version. *)
Theorem convertOxlintToSarif_spec `{H : Host} stringify input indent :
  (∀ e, convertOxlintToSarif stringify input indent = Throw e ↔
        parseOxlintJson input = Throw e) ∧
  (∀ report, parseOxlintJson input = Return report →
     ∃ log run parsed items,
       convertOxlintToSarif stringify input indent =
         Return (stringify log (default 2%float indent)) ∧
       runs log = [run] ∧
       version (driver run) = None ∧
       JSON_parse input = inr parsed ∧
       getProp parsed (js "diagnostics") = Some (JArr items) ∧
       length (results run) = length (filter hasDiagnosticKeys items)).
Proof.
  unfold convertOxlintToSarif. split.
  - intros e. destruct (parseOxlintJson input) as [report|e']; simpl.
    + split; discriminate.
    + split; intros [= ->]; reflexivity.
  - intros report Hp. rewrite Hp. simpl.
    apply parseOxlintJson_Return in Hp as (parsed & _ & Hdec & Hrep & Hds).
    unfold isOxlintReport in Hrep. apply andb_true_iff in Hrep as [_ Hrep].
    unfold rawDiagnostics in Hds.
    destruct (getProp parsed (js "diagnostics")) as [[| | | |items|]|] eqn:Ediag;
      try discriminate.
    eexists _, _, parsed, items.
    split; [reflexivity|]. split; [apply convertToSarif_runs|].
    cbn [driver results]. split; [apply convertLoop_version|].
    split; [done|]. split; [done|].
    rewrite !length_fmap. apply Forall2_length in Hds. rewrite <- Hds.
    f_equal. apply list_filter_iff. intros x. apply isOxlintDiagnostic_keys.
Qed.

Lemma convertOxlintToSarif_spec_witness :
  ∃ report log run parsed items,
    parseOxlintJson (H := exHost) exSeverityText = Return report ∧
    convertOxlintToSarif (H := exHost) exStringify exSeverityText None =
      Return (exStringify log 2%float) ∧
    runs log = [run] ∧
    version (driver run) = None ∧
    JSON_parse (Host := exHost) exSeverityText = inr parsed ∧
    getProp parsed (js "diagnostics") = Some (JArr items) ∧
    length items = 3 ∧ length (results run) = 2.
Proof.
  destruct (proj2 (convertOxlintToSarif_spec (H := exHost) exStringify
                     exSeverityText None) _ eq_refl)
    as (log & run & parsed & items & Hc & Hruns & Hv & Hdec & Hitems & Hlen).
  eexists _, log, run, parsed, items.
  split; [reflexivity|]. split; [exact Hc|]. split; [exact Hruns|].
  split; [exact Hv|]. split; [exact Hdec|]. split; [exact Hitems|].
  injection Hdec as <-. injection Hitems as <-.
  split; [reflexivity|]. exact Hlen.
Defined.

(** ** The command line *)

Lemma usageMessage_error : isErrorMessage usageMessage.
Proof.
  split.
  - by eexists.
  - unfold usageMessage. rewrite !app_assoc. by eexists.
Qed.

Section CliFacts.
Context `{H : Host}.
Variable stringify : Log → float → jsstring.
Variable errorString : DecodeError → jsstring.
Variable typeErrorMessage : jsstring.

Lemma convertAndWrite_cases env content :
  (∃ e, convertOxlintToSarif stringify content None = Throw e ∧
        convertAndWrite stringify errorString typeErrorMessage env content =
        [ WriteStderr (js "Error: Conversion failed: " ++
                       errorMessage errorString typeErrorMessage e ++ [10%N]);
          Exit 1 ]) ∨
  (∃ sarif, convertOxlintToSarif stringify content None = Return sarif ∧
            whenTruthy (opt_output env) = None ∧
            convertAndWrite stringify errorString typeErrorMessage env content =
            [ WriteStdout (sarif ++ [10%N]) ]) ∨
  (∃ sarif out, convertOxlintToSarif stringify content None = Return sarif ∧
                whenTruthy (opt_output env) = Some out ∧
                writeFile env out sarif = None ∧
                convertAndWrite stringify errorString typeErrorMessage env content =
                [ WriteFile out sarif ]) ∨
  (∃ sarif out message,
     convertOxlintToSarif stringify content None = Return sarif ∧
     whenTruthy (opt_output env) = Some out ∧
     writeFile env out sarif = Some message ∧
     convertAndWrite stringify errorString typeErrorMessage env content =
     [ WriteFile out sarif;
       WriteStderr (js "Error: Cannot write output file " ++ [34%N] ++ out ++
                    [34%N] ++ js ": " ++ message ++ [10%N]);
       Exit 1 ]).
Proof.
  unfold convertAndWrite.
  destruct (convertOxlintToSarif stringify content None) as [sarif|e];
    [|left; eauto].
  right. destruct (whenTruthy (opt_output env)) as [out|]; [|left; eauto].
  right. destruct (writeFile env out sarif) as [message|] eqn:Ew.
  - right. eauto 10.
  - left. eauto 10.
Qed.

Lemma error_message_shape (a b : jsstring) :
  js "Error: " `prefix_of` a → isErrorMessage (a ++ b ++ [10%N]).
Proof.
  intros [k ->]. split.
  - exists (k ++ b ++ [10%N]). by rewrite <- app_assoc.
  - exists ((js "Error: " ++ k) ++ b). by rewrite <- !app_assoc.
Qed.

Lemma conversion_failed_message m :
  isErrorMessage (js "Error: Conversion failed: " ++ m ++ [10%N]).
Proof. apply error_message_shape. by eexists. Qed.

Lemma write_failed_message out m :
  isErrorMessage (js "Error: Cannot write output file " ++ [34%N] ++ out ++
                  [34%N] ++ js ": " ++ m ++ [10%N]).
Proof.
  replace (js "Error: Cannot write output file " ++ [34%N] ++ out ++
           [34%N] ++ js ": " ++ m ++ [10%N])
    with (js "Error: Cannot write output file " ++
          ([34%N] ++ out ++ [34%N] ++ js ": " ++ m) ++ [10%N])
    by (by rewrite <- !app_assoc).
  apply error_message_shape. by eexists.
Qed.

Lemma read_failed_message path m :
  isErrorMessage (js "Error: Cannot read input file " ++ [34%N] ++ path ++
                  [34%N] ++ js ": " ++ m ++ [10%N]).
Proof.
  replace (js "Error: Cannot read input file " ++ [34%N] ++ path ++
           [34%N] ++ js ": " ++ m ++ [10%N])
    with (js "Error: Cannot read input file " ++
          ([34%N] ++ path ++ [34%N] ++ js ": " ++ m) ++ [10%N])
    by (by rewrite <- !app_assoc).
  apply error_message_shape. by eexists.
Qed.

Lemma stdin_failed_message m :
  isErrorMessage (js "Error: Failed to read from stdin: " ++ m ++ [10%N]).
Proof. apply error_message_shape. by eexists. Qed.

(** What a run of the conversion and output stage looks like, by exit code. *)
Lemma convertAndWrite_outcome env content :
  let run := convertAndWrite stringify errorString typeErrorMessage env content in
  (exitCode run = 1 ∧ stdoutOf run = [] ∧ isErrorMessage (stderrOf run) ∧
   (∃ pre, run = pre ++ [WriteStderr (stderrOf run); Exit 1]) ∧
   (∀ p c, WriteFile p c ∈ run → is_Some (writeFile env p c))) ∨
  (exitCode run = 0 ∧ stderrOf run = [] ∧
   (∀ p c, WriteFile p c ∈ run → writeFile env p c = None)).
Proof.
  intros run. subst run.
  destruct (convertAndWrite_cases env content)
    as [(e & _ & ->) | [(sarif & _ & _ & ->) | [(sarif & out & _ & _ & Hw & ->)
        | (sarif & out & message & _ & _ & Hw & ->)]]]; simpl.
  - left. rewrite app_nil_r. split; [done|]. split; [done|].
    split; [apply conversion_failed_message|]. split; [by exists []|].
    intros p c Hin. not_among Hin.
  - right. split; [done|]. split; [done|]. intros p c Hin. not_among Hin.
  - right. split; [done|]. split; [done|]. intros p c Hin.
    apply list_elem_of_singleton in Hin. by injection Hin as -> ->.
  - left. rewrite app_nil_r. split; [done|]. split; [done|].
    split; [apply write_failed_message|].
    split; [by exists [WriteFile out sarif]|].
    intros p c Hin. apply elem_of_cons in Hin as [Hin|Hin]; [|not_among Hin].
    injection Hin as -> ->. by rewrite Hw.
Qed.

End CliFacts.

Lemma failed_run (pre : list Action) msg (P : jsstring → jsstring → Prop) :
  Forall (fun a => isRead a = true) pre →
  isErrorMessage msg →
  let run := pre ++ [WriteStderr msg; Exit 1] in
  exitCode run = 1 ∧ stdoutOf run = [] ∧ isErrorMessage (stderrOf run) ∧
  (∃ pre', run = pre' ++ [WriteStderr (stderrOf run); Exit 1]) ∧
  (∀ p c, WriteFile p c ∈ run → P p c).
Proof.
  intros Hpre Hmsg run.
  assert (exitCode run = 1 ∧ stdoutOf run = [] ∧ stderrOf run = msg) as (He & Ho & Hs).
  { subst run. induction Hpre as [|a pre Ha _ IH]; simpl.
    - by rewrite app_nil_r.
    - destruct a; try discriminate Ha; exact IH. }
  rewrite Hs. split; [done|]. split; [done|]. split; [done|].
  split; [by exists pre|].
  intros p c Hin. subst run. apply elem_of_app in Hin as [Hin|Hin].
  - eapply Forall_forall in Hpre; [|exact Hin]. discriminate Hpre.
  - not_among Hin.
Qed.

Section CliTheorems.
Context `{H : Host}.
Variable stringify : Log → float → jsstring.
Variable errorString : DecodeError → jsstring.
Variable typeErrorMessage : jsstring.

(** Every run of the command line in which the parsing of the arguments
    returns (commander does not end the process: no --help, no --version, no
    option error) ends in one of two ways.  It fails: the exit code is 1,
    nothing was written on the standard output, the standard error got one
    message, which starts with Error: and ends with a line feed, printed just
    before the exit, and a file write, if one was tried, is the one that
    failed.  Or it succeeds: the exit code is 0, nothing was written on the
    standard error, and a file write, if any, went through. *)
Theorem main_exit_code env :
  program_parse env = None →
  let run := main stringify errorString typeErrorMessage env in
  (exitCode run = 1 ∧ stdoutOf run = [] ∧ isErrorMessage (stderrOf run) ∧
   (∃ pre, run = pre ++ [WriteStderr (stderrOf run); Exit 1]) ∧
   (∀ p c, WriteFile p c ∈ run → is_Some (writeFile env p c))) ∨
  (exitCode run = 0 ∧ stderrOf run = [] ∧
   (∀ p c, WriteFile p c ∈ run → writeFile env p c = None)).
Proof.
  intros Hparsed run. subst run. unfold main. rewrite Hparsed.
  assert (∀ src content,
            isRead src = true →
            let run := src :: convertAndWrite stringify errorString
                                typeErrorMessage env content in
            (exitCode run = 1 ∧ stdoutOf run = [] ∧ isErrorMessage (stderrOf run) ∧
             (∃ pre, run = pre ++ [WriteStderr (stderrOf run); Exit 1]) ∧
             (∀ p c, WriteFile p c ∈ run → is_Some (writeFile env p c))) ∨
            (exitCode run = 0 ∧ stderrOf run = [] ∧
             (∀ p c, WriteFile p c ∈ run → writeFile env p c = None))) as Hstage.
  { intros src content Hsrc. cbv zeta.
    set (r := convertAndWrite stringify errorString typeErrorMessage env content).
    assert (exitCode (src :: r) = exitCode r ∧ stdoutOf (src :: r) = stdoutOf r ∧
            stderrOf (src :: r) = stderrOf r) as (-> & -> & ->)
      by (destruct src; done).
    pose proof (convertAndWrite_outcome stringify errorString typeErrorMessage
                  env content) as Hout.
    cbv zeta in Hout. fold r in Hout.
    destruct Hout as [(He & Ho & Hm & [pre Hpre] & Hw) | (He & Hm & Hw)].
    - left. split; [done|]. split; [done|]. split; [done|]. split.
      + exists (src :: pre). simpl. f_equal. exact Hpre.
      + intros p c Hin.
        apply elem_of_cons in Hin as [Hin|Hin]; [by subst src | by apply Hw].
    - right. split; [done|]. split; [done|]. intros p c Hin.
      apply elem_of_cons in Hin as [Hin|Hin]; [by subst src | by apply Hw]. }
  destruct (whenTruthy (opt_input env)) as [path|].
  - destruct (readFile env path) as [message|content]; [|by apply Hstage].
    left. apply (failed_run [ReadFile path]);
      [by repeat constructor | apply read_failed_message].
  - destruct (stdin_isTTY env).
    + left. apply (failed_run []); [constructor | apply usageMessage_error].
    + destruct (readStdin env) as [message|content]; [|by apply Hstage].
      left. apply (failed_run [ReadStdin]);
        [by repeat constructor | apply stdin_failed_message].
Qed.

(** A run in which the parsing of the arguments returns succeeds exactly
    when the input could be read (from the file of a non-empty --input, else
    from a standard input that is no terminal), the conversion returned, and
    the output could be written.  It then consists of the read and one write:
    of the SARIF text followed by a line feed on the standard output, or,
    with a non-empty --output, of the SARIF text alone to that file. *)
Theorem main_success env :
  program_parse env = None →
  exitCode (main stringify errorString typeErrorMessage env) = 0 ↔
  ∃ src content sarif,
    ((∃ path, whenTruthy (opt_input env) = Some path ∧
              readFile env path = inr content ∧ src = ReadFile path) ∨
     (whenTruthy (opt_input env) = None ∧ stdin_isTTY env = false ∧
      readStdin env = inr content ∧ src = ReadStdin)) ∧
    convertOxlintToSarif stringify content None = Return sarif ∧
    ((whenTruthy (opt_output env) = None ∧
      main stringify errorString typeErrorMessage env =
        [src; WriteStdout (sarif ++ [10%N])]) ∨
     (∃ out, whenTruthy (opt_output env) = Some out ∧
             writeFile env out sarif = None ∧
             main stringify errorString typeErrorMessage env =
               [src; WriteFile out sarif])).
Proof.
  intros Hparsed. split.
  - unfold main. rewrite Hparsed.
    assert (∀ src content,
              isRead src = true →
              exitCode (src :: convertAndWrite stringify errorString
                                 typeErrorMessage env content) = 0 →
              ∃ sarif,
                convertOxlintToSarif stringify content None = Return sarif ∧
                ((whenTruthy (opt_output env) = None ∧
                  src :: convertAndWrite stringify errorString typeErrorMessage
                           env content = [src; WriteStdout (sarif ++ [10%N])]) ∨
                 (∃ out, whenTruthy (opt_output env) = Some out ∧
                         writeFile env out sarif = None ∧
                         src :: convertAndWrite stringify errorString
                                  typeErrorMessage env content =
                           [src; WriteFile out sarif]))) as Hstage.
    { intros src content Hsrc He.
      assert (exitCode (convertAndWrite stringify errorString typeErrorMessage
                          env content) = 0) as He' by (destruct src; done).
      destruct (convertAndWrite_cases stringify errorString typeErrorMessage
                  env content)
        as [(e & _ & Hr) | [(sarif & Hc & Ho & Hr) | [(sarif & out & Hc & Ho & Hw & Hr)
            | (sarif & out & message & _ & _ & _ & Hr)]]];
        rewrite Hr in He' |- *; try discriminate He'.
      - exists sarif. split; [done|]. by left.
      - exists sarif. split; [done|]. right. by exists out. }
    destruct (whenTruthy (opt_input env)) as [path|].
    + destruct (readFile env path) as [message|content] eqn:Er; [discriminate|].
      intros He. destruct (Hstage (ReadFile path) content eq_refl He)
        as (sarif & Hc & Hout).
      exists (ReadFile path), content, sarif.
      split; [left; by exists path|]. done.
    + destruct (stdin_isTTY env); [discriminate|].
      destruct (readStdin env) as [message|content] eqn:Er; [discriminate|].
      intros He. destruct (Hstage ReadStdin content eq_refl He)
        as (sarif & Hc & Hout).
      exists ReadStdin, content, sarif. split; [by right|]. done.
  - intros (src & content & sarif & Hin & _ & [[_ ->] | (out & _ & _ & ->)]);
      destruct Hin as [(path & _ & _ & ->) | (_ & _ & _ & ->)]; reflexivity.
Qed.

(** Where the input comes from, once the parsing of the arguments has
    returned.  With a non-empty --input the file is the only thing read,
    whatever the standard input is.  Without one (no option, or an empty
    path) and with a terminal as standard input, nothing is read or written:
    the run is the usage message and the exit with code 1.  Without one and
    with a piped standard input, that is the only thing read.  When commander
    ends the process instead, the run is what commander did, and nothing is
    read by the program. *)
Theorem main_input_source env :
  (program_parse env = None →
   ∀ path, whenTruthy (opt_input env) = Some path →
           List.filter isRead (main stringify errorString typeErrorMessage env)
           = [ReadFile path]) ∧
  (program_parse env = None →
   whenTruthy (opt_input env) = None → stdin_isTTY env = true →
   main stringify errorString typeErrorMessage env =
     [WriteStderr usageMessage; Exit 1]) ∧
  (program_parse env = None →
   whenTruthy (opt_input env) = None → stdin_isTTY env = false →
   List.filter isRead (main stringify errorString typeErrorMessage env)
   = [ReadStdin]) ∧
  (∀ ended, program_parse env = Some ended →
            main stringify errorString typeErrorMessage env = ended).
Proof.
  assert (∀ content,
            List.filter isRead (convertAndWrite stringify errorString
                                  typeErrorMessage env content) = []) as Hnone.
  { intros content.
    destruct (convertAndWrite_cases stringify errorString typeErrorMessage
                env content)
      as [(e & _ & ->) | [(sarif & _ & _ & ->) | [(sarif & out & _ & _ & _ & ->)
          | (sarif & out & message & _ & _ & _ & ->)]]]; reflexivity. }
  unfold main. split; [|split; [|split]].
  - intros -> path ->. destruct (readFile env path); simpl; [done|].
    by rewrite Hnone.
  - by intros -> -> ->.
  - intros -> -> ->. destruct (readStdin env); simpl; [done|]. by rewrite Hnone.
  - by intros ended ->.
Qed.

End CliTheorems.

Lemma main_exit_code_witness :
  let run := main (H := exHost) exStringify exErrorString (js "TypeError") exTtyEnv in
  (exitCode run = 1 ∧ stdoutOf run = [] ∧ isErrorMessage (stderrOf run) ∧
   (∃ pre, run = pre ++ [WriteStderr (stderrOf run); Exit 1]) ∧
   (∀ p c, WriteFile p c ∈ run → is_Some (writeFile exTtyEnv p c))) ∨
  (exitCode run = 0 ∧ stderrOf run = [] ∧
   (∀ p c, WriteFile p c ∈ run → writeFile exTtyEnv p c = None)).
Proof.
  exact (main_exit_code (H := exHost) exStringify exErrorString
           (js "TypeError") exTtyEnv eq_refl).
Defined.

Lemma main_success_witness :
  ∃ src content sarif,
    ((∃ path, whenTruthy (opt_input exFileEnv) = Some path ∧
              readFile exFileEnv path = inr content ∧ src = ReadFile path) ∨
     (whenTruthy (opt_input exFileEnv) = None ∧ stdin_isTTY exFileEnv = false ∧
      readStdin exFileEnv = inr content ∧ src = ReadStdin)) ∧
    convertOxlintToSarif (H := exHost) exStringify content None = Return sarif ∧
    ((whenTruthy (opt_output exFileEnv) = None ∧
      main (H := exHost) exStringify exErrorString (js "TypeError") exFileEnv =
        [src; WriteStdout (sarif ++ [10%N])]) ∨
     (∃ out, whenTruthy (opt_output exFileEnv) = Some out ∧
             writeFile exFileEnv out sarif = None ∧
             main (H := exHost) exStringify exErrorString (js "TypeError") exFileEnv =
               [src; WriteFile out sarif])).
Proof.
  exact (proj1 (main_success (H := exHost) exStringify exErrorString
                  (js "TypeError") exFileEnv eq_refl) eq_refl).
Defined.

Lemma main_input_source_witness :
  main (H := exHost) exStringify exErrorString (js "TypeError") exTtyEnv =
    [WriteStderr usageMessage; Exit 1].
Proof.
  exact (proj1 (proj2 (main_input_source (H := exHost) exStringify exErrorString
                         (js "TypeError") exTtyEnv)) eq_refl eq_refl eq_refl).
Defined.

(** ** Parser and converter together *)



(** On a severity made of ASCII characters the normalization ignores case:
    the result is error exactly when the text is error in some mix of upper
    and lower case, and warning for every other text. *)
Theorem normalizeOxlintSeverity_ascii `{H : Host} s :
  Forall (fun c => (c < 128)%N) s →
  (normalizeOxlintSeverity s = SevError ↔ asciiLower <$> s = js "error") ∧
  (normalizeOxlintSeverity s = SevWarning ↔ asciiLower <$> s ≠ js "error").
Proof.
  intros Hs. rewrite normalizeOxlintSeverity_spec, toLowerCase_ascii by done.
  destruct (decide (asciiLower <$> s = js "error")); split; split; done.
Qed.

Lemma normalizeOxlintSeverity_ascii_witness :
  (normalizeOxlintSeverity (H := exHost) (js "ErRoR") = SevError ↔
   asciiLower <$> js "ErRoR" = js "error") ∧
  (normalizeOxlintSeverity (H := exHost) (js "ErRoR") = SevWarning ↔
   asciiLower <$> js "ErRoR" ≠ js "error").
Proof.
  apply (normalizeOxlintSeverity_ascii (H := exHost) (js "ErRoR")).
  repeat constructor.
Defined.
